(** * The interview and quiz session controllers, embedded and verified

  A shallow embedding of the three source files of the application:

  - [services/geminiService.ts]: the gateway functions
    ([generateQuestionsFromResume], [evaluateAnswer], [generateMcqTest]);
  - [components/McqTestPage.tsx]: the quiz controller and its results view;
  - [App.tsx] (which also carries [ResumeInterviewPage]): the spoken
    interview controller, its timers, its transcription callbacks, its
    proctoring policy and its results view.

  The controllers are React function components.  What matters for the
  properties below is React's evaluation model, which the embedding keeps:
  a callback created by a render reads the [useState] values of THAT render
  (its snapshot); a setter call does not change the snapshot, it queues an
  update that the next render applies; a [useRef] cell is an ordinary
  mutable cell, read and written at once; an effect runs after a render in
  which one of its dependencies changed. *)

From Stdlib Require Import ZArith String Ascii Lia.
From stdpp Require Import base list strings.

Local Open Scope string_scope.

(** ** JavaScript values used by the components *)

Module Js.

(** A JavaScript array of strings: [None] is an empty slot, which reads as
    [undefined]. *)
Abbreviation array := (list (option string)).

(** [new Array(n).fill(v)] *)
Definition array_fill (n : nat) (v : string) : array := replicate n (Some v).

(** [a[i]]: [undefined] (here [None]) outside the array and on a hole. *)
Definition array_get (a : array) (i : nat) : option string := mjoin (a !! i).

(** [a[i] = v] on a copy of [a].  Inside the array the slot is replaced;
    outside, JavaScript extends the array with holes up to [i]. *)
Definition array_set (a : array) (i : nat) (v : string) : array :=
  if decide (i < length a) then <[i := Some v]> a
  else a ++ replicate (i - length a) None ++ [Some v].

(** Truthiness of a [string | undefined]: only a non-empty string. *)
Definition truthy (x : option string) : bool :=
  match x with
  | Some s => negb (String.eqb s "")
  | None => false
  end.

(** [x || d] *)
Definition or_default (x : option string) (d : string) : string :=
  match x with
  | Some s => if String.eqb s "" then d else s
  | None => d
  end.

(** White space removed by [String.prototype.trim], restricted to the
    ASCII range: TAB, LF, VT, FF, CR and SPACE.  JavaScript also removes
    the white space outside that range (U+00A0, U+3000, U+FEFF, ...): on a
    buffer that begins or ends with such a character [trim] below keeps
    what JavaScript would remove. *)
Definition is_space (c : ascii) : bool :=
  let n := nat_of_ascii c in
  (Nat.leb 9 n && Nat.leb n 13) || Nat.eqb n 32.

Fixpoint trimStart (s : string) : string :=
  match s with
  | EmptyString => EmptyString
  | String c s' => if is_space c then trimStart s' else s
  end.

Definition trim (s : string) : string :=
  String.rev (trimStart (String.rev (trimStart s))).

(** [toLowerCase] on the ASCII letters. *)
Definition lower_ascii (c : ascii) : ascii :=
  let n := nat_of_ascii c in
  if Nat.leb 65 n && Nat.leb n 90 then ascii_of_nat (n + 32) else c.

Fixpoint toLowerCase (s : string) : string :=
  match s with
  | EmptyString => EmptyString
  | String c s' => String (lower_ascii c) (toLowerCase s')
  end.

(** [hay.includes(needle)] *)
Fixpoint includes (hay needle : string) : bool :=
  String.prefix needle hay ||
  match hay with
  | EmptyString => false
  | String _ hay' => includes hay' needle
  end.

(** A JavaScript number as far as the score views need it: a finite
    integer, or the outcome of a division by zero ([NaN] for 0/0,
    [Infinity] otherwise). *)
Inductive number := Fin (z : Z) | NaN | Infinity.

(** [Math.round((num / den) * 100)].  The quotient is taken exactly and
    rounded half up, as [Math.round] does; binary64 rounding of the
    intermediate quotient is not modelled.  The two differ where the exact
    percentage ends in one half and the binary64 product falls just below
    it: for 23 out of 40 the page shows 57 and [round_percent] gives 58.
    They agree on 0, on [num = den] and on the bounds 0 and 100. *)
Definition round_percent (num den : Z) : number :=
  if (den =? 0)%Z then (if (num =? 0)%Z then NaN else Infinity)
  else Fin ((2 * 100 * num + den) / (2 * den))%Z.

End Js.

(** ** The gateway: [services/geminiService.ts] *)

Module Gateway.

(** How a promise settles. *)
Inductive Settled (A : Type) : Type :=
| Resolved (value : A)
| Rejected (reason : string).
Arguments Resolved {A} value.
Arguments Rejected {A} reason.

(** The outcome of a [try] block. *)
Inductive Try (A : Type) : Type :=
| Returns (value : A)
| Throws (message : string).
Arguments Returns {A} value.
Arguments Throws {A} message.

Record MCQ := mkMCQ {
  question : string;
  options : list string;
  correctAnswer : string
}.

Inductive TechnicalSubject := DBMS | CN | OOPS | DSA | OS | CPP.

Definition subject_text (s : TechnicalSubject) : string :=
  match s with
  | DBMS => "DBMS" | CN => "CN" | OOPS => "OOPS"
  | DSA => "DSA" | OS => "OS" | CPP => "C++"
  end.

Definition sampleResumeQuestions : list string :=
  [ "Can you walk me through the most challenging project on your resume?";
    "Explain the architecture of the project where you used Node.js and React.";
    "What was your specific role and contribution to the 'AI Chatbot' project?";
    "How did you handle data persistence in the 'E-commerce Platform' project?";
    "Tell me about a time you had to learn a new technology for a project listed here. What was it and what was the outcome?";
    "Describe a difficult bug you encountered in one of these projects and how you resolved it.";
    "Based on your resume, what do you consider your strongest technical skill and why?";
    "How did you ensure the scalability of the 'Social Media API' project?";
    "What is something you would do differently if you were to start your 'Data Visualization Dashboard' project today?";
    "Explain the purpose and outcome of the certification you received in Cloud Computing." ].

Definition sampleMcqs : list MCQ :=
  [ mkMCQ "In object-oriented programming, what is encapsulation?"
      [ "The process of hiding the implementation details of an object";
        "The ability of an object to take on many forms";
        "The process of creating a new class from an existing class";
        "A type of data structure" ]
      "The process of hiding the implementation details of an object";
    mkMCQ "What does the acronym 'SQL' stand for?"
      [ "Structured Query Language"; "Simple Query Language";
        "Standard Query Log"; "System Qualification Layer" ]
      "Structured Query Language";
    mkMCQ "Which data structure operates on a Last-In, First-Out (LIFO) basis?"
      [ "Queue"; "Stack"; "Linked List"; "Tree" ]
      "Stack";
    mkMCQ "What is the primary purpose of a DNS server?"
      [ "To store website files"; "To translate domain names to IP addresses";
        "To encrypt network traffic"; "To manage database connections" ]
      "To translate domain names to IP addresses";
    mkMCQ "In CSS, what property is used to change the text color of an element?"
      [ "font-color"; "text-color"; "color"; "font-style" ]
      "color";
    mkMCQ "What is the time complexity of a binary search algorithm?"
      [ "O(n)"; "O(log n)"; "O(n^2)"; "O(1)" ]
      "O(log n)";
    mkMCQ "Which of the following is NOT a primitive data type in JavaScript?"
      [ "String"; "Number"; "Array"; "Boolean" ]
      "Array";
    mkMCQ "What does 'OS' stand for in the context of computing?"
      [ "Operating System"; "Open Source"; "Order of Significance"; "Optical Sensor" ]
      "Operating System";
    mkMCQ "What is the role of an operating system's kernel?"
      [ "To provide a user interface";
        "To manage hardware resources and provide core system services";
        "To run application software"; "To compile source code" ]
      "To manage hardware resources and provide core system services";
    mkMCQ "In C++, what is a constructor?"
      [ "A function that is automatically called when an object is destroyed";
        "A special method for creating and initializing an object";
        "A data type for storing integers"; "A loop structure" ]
      "A special method for creating and initializing an object" ].

(** [process.env.API_KEY] *)
Record Env := mkEnv { API_KEY : option string }.

Definition isApiKeyConfigured (env : Env) : bool :=
  match API_KEY env with
  | Some k => Nat.ltb 0 (String.length k)
  | None => false
  end.

(** [getAi]: the client, or [null] in demo mode. *)
Definition getAi (env : Env) : option unit :=
  if negb (isApiKeyConfigured env) then None else Some tt.

(** *** Question generation *)

(** What the remote call and the parse of its text come to.  The request
    carries a response schema (an array of strings), so an array reply is
    taken to hold strings. *)
Inductive QuestionsReply :=
| QArray (items : list string)     (* JSON.parse gave an array *)
| QOther                           (* JSON.parse gave something else *)
| QError (message : string).       (* the call or the parse threw *)

Definition questions_try (reply : QuestionsReply) : Try (list string) :=
  match reply with
  | QArray items => Returns items
  | QOther => Returns []
  | QError message => Throws message
  end.

Definition generateQuestionsFromResume (env : Env) (reply : QuestionsReply)
  : Settled (list string) :=
  if negb (isApiKeyConfigured env) then Resolved sampleResumeQuestions
  else match getAi env with
  | None => Resolved ["Could not connect to the AI service."]
  | Some _ =>
    match questions_try reply with
    | Returns questions => Resolved questions
    | Throws errorMessage =>
      if Js.includes errorMessage "400"
      then Resolved ["Could not process the uploaded file. It might be corrupted or in an unsupported format. Please try a different file (PDF, DOCX, TXT)."]
      else Resolved ["Could not generate questions due to an API error. Please try again later."]
    end
  end.

(** *** Answer evaluation *)

Record Evaluation := mkEvaluation { feedback : string; score : Z }.

(** The parsed reply: each field is present with the expected type, or
    not ([None]). *)
Inductive EvaluationReply :=
| EObject (fb : option string) (sc : option Z)
| EError (message : string).

Definition evaluation_try (reply : EvaluationReply) : Try Evaluation :=
  match reply with
  | EObject (Some fb) (Some sc) => Returns (mkEvaluation fb sc)
  | EObject _ _ => Throws "Generated data does not match evaluation format."
  | EError message => Throws message
  end.

Definition evaluation_fallback : Evaluation :=
  mkEvaluation "An error occurred while evaluating the answer. Please try again." 0.

(** [random] stands for [Math.floor(Math.random() * 3)]. *)
Definition evaluateAnswer (env : Env) (random : nat) (reply : EvaluationReply)
    (question answer : string) : Settled Evaluation :=
  if negb (isApiKeyConfigured env) then
    let randomScore := (Z.of_nat (random mod 3) + 3)%Z in
    Resolved (mkEvaluation
      "This is a solid answer. You demonstrated a good understanding of the topic. To improve, you could provide a more specific, real-world example from your experience."
      randomScore)
  else match getAi env with
  | None => Resolved (mkEvaluation "Could not connect to the AI service." 0)
  | Some _ =>
    match evaluation_try reply with
    | Returns result => Resolved result
    | Throws _ => Resolved evaluation_fallback
    end
  end.

(** *** Quiz generation *)

Inductive McqItem :=
| ItemComplete (m : MCQ)    (* has the keys question, options, correctAnswer *)
| ItemPartial               (* an object that lacks one of them *)
| ItemPrimitive.            (* not an object: the [in] test throws *)

Inductive McqReply :=
| MArray (items : list McqItem)
| MOther
| MError (message : string).

Fixpoint mcq_items (items : list McqItem) : Try (list MCQ) :=
  match items with
  | [] => Returns []
  | ItemComplete m :: rest =>
    match mcq_items rest with
    | Returns ms => Returns (m :: ms)
    | Throws e => Throws e
    end
  | ItemPartial :: _ => Throws "Generated data does not match MCQ format."
  | ItemPrimitive :: _ => Throws "Cannot use 'in' operator to search for a key in a primitive"
  end.

Definition mcq_try (reply : McqReply) : Try (list MCQ) :=
  match reply with
  | MArray items => mcq_items items
  | MOther => Throws "Generated data does not match MCQ format."
  | MError message => Throws message
  end.

Definition mcq_sentinel (subject : TechnicalSubject) : MCQ :=
  mkMCQ ("An error occurred while fetching questions for " ++ subject_text subject
           ++ ". Please try again.") [] "".

Definition generateMcqTest (env : Env) (reply : McqReply) (subject : TechnicalSubject)
  : Settled (list MCQ) :=
  if negb (isApiKeyConfigured env) then Resolved sampleMcqs
  else match getAi env with
  | None => Resolved [mkMCQ "Could not connect to the AI service." [] ""]
  | Some _ =>
    match mcq_try reply with
    | Returns mcqs => Resolved mcqs
    | Throws _ => Resolved [mcq_sentinel subject]
    end
  end.

(** A reply that quiz generation cannot use: the call or the parse failed,
    the parsed value is not an array, or an element lacks one of the keys. *)
Definition mcq_reply_unusable (reply : McqReply) : bool :=
  match reply with
  | MArray items =>
    existsb (fun item => match item with ItemComplete _ => false | _ => true end) items
  | MOther => true
  | MError _ => true
  end.

End Gateway.

(** ** The quiz controller: [components/McqTestPage.tsx] *)

Module Mcq.
Import Gateway.

Inductive McqState := select | loading | inProgress | summarizing | results.

(** The [useState] cells of [McqTestPage] that the quiz flow uses. *)
Record Hooks := mkHooks {
  selectedSubject : option TechnicalSubject;
  questions : list MCQ;
  currentQuestionIndex : nat;
  userAnswers : Js.array;
  mcqState : McqState;
  score : nat
}.

Definition initial : Hooks := mkHooks None [] 0 [] select 0.

(** [ResultsView]: the displayed percentage. *)
Definition percentage (score : nat) (questions : list MCQ) : Js.number :=
  if Nat.ltb 0 (length questions)
  then Js.round_percent (Z.of_nat score) (Z.of_nat (length questions))
  else Js.Fin 0.

(** [handleSelectSubject], up to its [await]. *)
Definition handleSelectSubject_request (subject : TechnicalSubject) (h : Hooks) : Hooks :=
  mkHooks (Some subject) (questions h) (currentQuestionIndex h) (userAnswers h)
          loading (score h).

(** [handleSelectSubject], after its [await].  There is no [try] around the
    call: were the promise rejected, the rest of the function would not run. *)
Definition handleSelectSubject_resume (fetched : Settled (list MCQ)) (h : Hooks) : Hooks :=
  match fetched with
  | Resolved fetchedQuestions =>
    mkHooks (selectedSubject h) fetchedQuestions (currentQuestionIndex h)
            (Js.array_fill (length fetchedQuestions) "") inProgress (score h)
  | Rejected _ => h
  end.

Definition handleSelectSubject (env : Env) (reply : McqReply)
    (subject : TechnicalSubject) (h : Hooks) : Hooks :=
  handleSelectSubject_resume (generateMcqTest env reply subject)
    (handleSelectSubject_request subject h).

Definition handleSelectAnswer (option : string) (h : Hooks) : Hooks :=
  let newAnswers := Js.array_set (userAnswers h) (currentQuestionIndex h) option in
  mkHooks (selectedSubject h) (questions h) (currentQuestionIndex h) newAnswers
          (mcqState h) (score h).

(** The [forEach] of [handleNextQuestion], with its running index. *)
Fixpoint count_correct (index : nat) (qs : list MCQ) (answers : Js.array) : nat :=
  match qs with
  | [] => 0
  | q :: rest =>
    (if decide (Some (correctAnswer q) = Js.array_get answers index) then 1 else 0)
    + count_correct (S index) rest answers
  end.

Definition handleNextQuestion (h : Hooks) : Hooks :=
  if (Z.of_nat (currentQuestionIndex h) <? Z.of_nat (length (questions h)) - 1)%Z
  then mkHooks (selectedSubject h) (questions h) (S (currentQuestionIndex h))
               (userAnswers h) (mcqState h) (score h)
  else
    let correctAnswers := count_correct 0 (questions h) (userAnswers h) in
    mkHooks (selectedSubject h) (questions h) (currentQuestionIndex h)
            (userAnswers h) summarizing correctAnswers.

(** The [disabled] attribute of the next/submit button. *)
Definition next_disabled (h : Hooks) : bool :=
  negb (Js.truthy (Js.array_get (userAnswers h) (currentQuestionIndex h))).

(** What the [inProgress] view shows: the current question, one button per
    option, and the next/submit button. *)
Record QuestionView := mkQuestionView {
  heading : string;
  optionButtons : list string;
  nextDisabled : bool
}.

(** The [inProgress] branch of [renderInterviewContent].  It takes
    [questions[currentQuestionIndex]] and reads its [question] and its
    [options]: outside the list the value is [undefined] and the read
    throws, so that the render fails and React removes the page. *)
Definition renderInProgress (h : Hooks) : Try QuestionView :=
  match questions h !! currentQuestionIndex h with
  | None => Throws "TypeError: Cannot read properties of undefined (reading 'question')"
  | Some currentQuestion =>
    Returns (mkQuestionView (question currentQuestion) (options currentQuestion)
                            (next_disabled h))
  end.

(** What the user can do on the rendered page.  The option buttons and the
    next/submit button exist only in the [inProgress] view, which reads
    [questions[currentQuestionIndex]]; a click is a discrete event, after
    which React renders before the next one is delivered, so each handler
    runs on the state the previous one left.  Where [renderInProgress]
    throws there is no page and no button to click: [click] leaves the
    state as it is there, which says nothing about what is on the screen. *)
Inductive Click :=
| ClickOption (k : nat)    (* the k-th option button of the current question *)
| ClickNext.

Definition click (c : Click) (h : Hooks) : Hooks :=
  match mcqState h with
  | inProgress =>
    match questions h !! currentQuestionIndex h with
    | None => h
    | Some currentQuestion =>
      match c with
      | ClickOption k =>
        match options currentQuestion !! k with
        | Some option => handleSelectAnswer option h
        | None => h
        end
      | ClickNext => if next_disabled h then h else handleNextQuestion h
      end
    end
  | _ => h
  end.

Definition clicks (cs : list Click) (h : Hooks) : Hooks :=
  fold_left (fun h c => click c h) cs h.

(** The page once the questions fetched for [subject] have arrived. *)
Definition started (subject : TechnicalSubject) (fetched : list MCQ) : Hooks :=
  handleSelectSubject_resume (Resolved fetched)
    (handleSelectSubject_request subject initial).

(** The score as the specification words it: the number of indices at which
    the stored answer equals the question's designated correct option. *)
Definition matching_indices (qs : list MCQ) (answers : Js.array) : list nat :=
  filter (fun i => Js.array_get answers i = correctAnswer <$> qs !! i)
         (seq 0 (length qs)).

(** Every index before the current one holds a non-empty answer, and so
    does the current one once the score has been computed. *)
Definition answered (h : Hooks) : Prop :=
  (forall j, j < currentQuestionIndex h ->
             Js.truthy (Js.array_get (userAnswers h) j) = true) /\
  (mcqState h = summarizing ->
   Js.truthy (Js.array_get (userAnswers h) (currentQuestionIndex h)) = true).

(** The demo quiz answered correctly throughout, on its last question. *)
Definition demo_all_correct : Hooks :=
  mkHooks (Some DSA) sampleMcqs 9 (Some <$> (correctAnswer <$> sampleMcqs)) inProgress 0.

End Mcq.

(** ** The spoken interview controller: [ResumeInterviewPage] in [App.tsx] *)

Module Interview.

Inductive InterviewState :=
  upload | generating | inProgress | evaluating | summarizing | results.
Inductive InterviewPhase := thinking | recording | idle.

#[global] Instance InterviewState_eq_dec : EqDecision InterviewState.
Proof. solve_decision. Defined.
#[global] Instance InterviewPhase_eq_dec : EqDecision InterviewPhase.
Proof. solve_decision. Defined.

Record InterviewResult := mkResult {
  question : string;
  answer : string;
  feedback : string;
  score : Z
}.

Record File := mkFile { name : string; type : string }.

(** The [useState] cells of the component that the interview flow uses
    (the summary and the camera-permission status are left out). *)
Record Hooks := mkHooks {
  resumeFile : option File;
  questions : list string;
  currentQuestionIndex : nat;
  interviewState : InterviewState;
  error : option string;
  interviewPhase : InterviewPhase;
  timer : Z;
  transcribedText : string;
  allAnswers : Js.array;
  interviewResults : list InterviewResult;
  isAdvancing : bool;
  recognitionError : option string;
  faceDetectionWarnings : nat
}.

Definition initial_hooks : Hooks :=
  mkHooks None [] 0 upload None idle 10 "" [] [] false None 0.

(** A call of a state setter, as it sits in React's queue.  The two setters
    called with a function of the previous value have their own
    constructors. *)
Inductive Update :=
| setResumeFile (v : option File)
| setQuestions (v : list string)
| setCurrentQuestionIndex_succ               (* setCurrentQuestionIndex(i => i + 1) *)
| setInterviewState (v : InterviewState)
| setError (v : option string)
| setInterviewPhase (v : InterviewPhase)
| setTimer (v : Z)
| setTimer_pred                              (* setTimer(t => t - 1) *)
| setTranscribedText (v : string)
| setAllAnswers (v : Js.array)
| setAllAnswers_at (index : nat) (v : string)  (* setAllAnswers(prev => { copy; copy[index] = v }) *)
| setInterviewResults (v : list InterviewResult)
| setIsAdvancing (v : bool)
| setRecognitionError (v : option string)
| setFaceDetectionWarnings (v : nat).

Definition apply (h : Hooks) (u : Update) : Hooks :=
  match h with
  | mkHooks rf qs i st er ph tm tx aa rs adv re fw =>
    match u with
    | setResumeFile v => mkHooks v qs i st er ph tm tx aa rs adv re fw
    | setQuestions v => mkHooks rf v i st er ph tm tx aa rs adv re fw
    | setCurrentQuestionIndex_succ => mkHooks rf qs (i + 1) st er ph tm tx aa rs adv re fw
    | setInterviewState v => mkHooks rf qs i v er ph tm tx aa rs adv re fw
    | setError v => mkHooks rf qs i st v ph tm tx aa rs adv re fw
    | setInterviewPhase v => mkHooks rf qs i st er v tm tx aa rs adv re fw
    | setTimer v => mkHooks rf qs i st er ph v tx aa rs adv re fw
    | setTimer_pred => mkHooks rf qs i st er ph (tm - 1)%Z tx aa rs adv re fw
    | setTranscribedText v => mkHooks rf qs i st er ph tm v aa rs adv re fw
    | setAllAnswers v => mkHooks rf qs i st er ph tm tx v rs adv re fw
    | setAllAnswers_at index v =>
      mkHooks rf qs i st er ph tm tx (Js.array_set aa index v) rs adv re fw
    | setInterviewResults v => mkHooks rf qs i st er ph tm tx aa v adv re fw
    | setIsAdvancing v => mkHooks rf qs i st er ph tm tx aa rs v re fw
    | setRecognitionError v => mkHooks rf qs i st er ph tm tx aa rs adv v fw
    | setFaceDetectionWarnings v => mkHooks rf qs i st er ph tm tx aa rs adv re v
    end
  end.

(** Everything of the component that is not a [useState] cell: the refs,
    the devices behind them, the pending timeouts, the calls made to the
    [onTerminate] prop, and the queue of state updates. *)
Record Runtime := mkRuntime {
  latestTranscript : string;     (* latestTranscript.current *)
  isTerminated : bool;           (* isTerminatedRef.current *)
  hasRecognition : bool;         (* recognitionRef.current is defined *)
  listening : bool;              (* recognition started and not yet stopped *)
  handlersAttached : bool;       (* rec.onresult and rec.onerror are set *)
  countdownArmed : bool;         (* the timeout of the timer effect is pending *)
  warningShown : bool;           (* opacity of the proctoring warning is 1 *)
  warningTimeouts : nat;         (* pending 4000 ms timeouts *)
  terminations : list (string * string);   (* calls of onTerminate, oldest first *)
  pending : list Update          (* queued updates, oldest first *)
}.

Definition initial_runtime (speech : bool) : Runtime :=
  mkRuntime "" false speech false speech false false 0 [] [].

Definition dispatch (u : Update) (rt : Runtime) : Runtime :=
  match rt with
  | mkRuntime lt tm hr li ha ca ws wt te pe =>
    mkRuntime lt tm hr li ha ca ws wt te (pe ++ [u])
  end.

Definition set_latestTranscript (v : string) (rt : Runtime) : Runtime :=
  match rt with
  | mkRuntime _ tm hr li ha ca ws wt te pe => mkRuntime v tm hr li ha ca ws wt te pe
  end.

Definition set_isTerminated (v : bool) (rt : Runtime) : Runtime :=
  match rt with
  | mkRuntime lt _ hr li ha ca ws wt te pe => mkRuntime lt v hr li ha ca ws wt te pe
  end.

(** [recognitionRef.current?.start()] and [?.stop()] *)
Definition recognition_start (rt : Runtime) : Runtime :=
  match rt with
  | mkRuntime lt tm hr li ha ca ws wt te pe =>
    mkRuntime lt tm hr (if hr then true else li) ha ca ws wt te pe
  end.

Definition recognition_stop (rt : Runtime) : Runtime :=
  match rt with
  | mkRuntime lt tm hr li ha ca ws wt te pe =>
    mkRuntime lt tm hr (if hr then false else li) ha ca ws wt te pe
  end.

Definition set_handlersAttached (v : bool) (rt : Runtime) : Runtime :=
  match rt with
  | mkRuntime lt tm hr li _ ca ws wt te pe => mkRuntime lt tm hr li v ca ws wt te pe
  end.

Definition set_countdownArmed (v : bool) (rt : Runtime) : Runtime :=
  match rt with
  | mkRuntime lt tm hr li ha _ ws wt te pe => mkRuntime lt tm hr li ha v ws wt te pe
  end.

Definition set_warning (shown : bool) (timeouts : nat) (rt : Runtime) : Runtime :=
  match rt with
  | mkRuntime lt tm hr li ha ca _ _ te pe =>
    mkRuntime lt tm hr li ha ca shown timeouts te pe
  end.

(** [onTerminate(reason, message)], for a parent that passes the prop as
    its declared type requires: the call is recorded. *)
Definition onTerminate (reason message : string) (rt : Runtime) : Runtime :=
  match rt with
  | mkRuntime lt tm hr li ha ca ws wt te pe =>
    mkRuntime lt tm hr li ha ca ws wt (te ++ [(reason, message)]) pe
  end.

Definition clear_pending (rt : Runtime) : Runtime :=
  match rt with
  | mkRuntime lt tm hr li ha ca ws wt te _ => mkRuntime lt tm hr li ha ca ws wt te []
  end.

(** *** The callbacks.  Each takes the snapshot [h] of the render that
    created it and acts on the runtime. *)

Definition handleFaceOutOfFrame (h : Hooks) (rt : Runtime) : Runtime :=
  if isTerminated rt || negb (bool_decide (interviewState h = inProgress)) then rt
  else if Nat.eqb (faceDetectionWarnings h) 0 then
    let rt := dispatch (setFaceDetectionWarnings 1) rt in
    set_warning true (S (warningTimeouts rt)) rt
  else
    let rt := set_isTerminated true rt in
    onTerminate "face_detection"
      "Interview terminated due to repeated face detection issues." rt.

(** [handleFaceOutOfFrame] with the [onTerminate] prop as the parent passed
    it.  [handleFaceOutOfFrame] above is the case [passed = true].  When
    the parent passes none, the prop is [undefined] and the call in the
    last branch throws, after the flag has been set.  The result is the
    runtime left behind and the uncaught exception, if there is one. *)
Definition handleFaceOutOfFrame_mounted (passed : bool) (h : Hooks) (rt : Runtime)
  : Runtime * option string :=
  if isTerminated rt || negb (bool_decide (interviewState h = inProgress)) then (rt, None)
  else if Nat.eqb (faceDetectionWarnings h) 0 then
    let rt := dispatch (setFaceDetectionWarnings 1) rt in
    (set_warning true (S (warningTimeouts rt)) rt, None)
  else
    let rt := set_isTerminated true rt in
    if passed
    then (onTerminate "face_detection"
            "Interview terminated due to repeated face detection issues." rt, None)
    else (rt, Some "TypeError: onTerminate is not a function").

Definition handleAdvanceAfterRecording (h : Hooks) (rt : Runtime) : Runtime :=
  if isAdvancing h || isTerminated rt then rt
  else
    let rt := dispatch (setIsAdvancing true) rt in
    let rt := recognition_stop rt in
    let finalAnswer := Js.trim (latestTranscript rt) in
    let rt := dispatch (setAllAnswers_at (currentQuestionIndex h) finalAnswer) rt in
    if (Z.of_nat (currentQuestionIndex h) <? Z.of_nat (length (questions h)) - 1)%Z
    then dispatch setCurrentQuestionIndex_succ rt
    else dispatch (setInterviewState evaluating) rt.

(** [rec.onresult]: [entries] are the entries of [event.results] from
    [event.resultIndex] on, each with its transcript and its [isFinal]. *)
Definition finalTranscript (entries : list (string * bool)) : string :=
  fold_left (fun (acc : string) (r : string * bool) =>
               if snd r then String.append acc (fst r) else acc)
            entries "".

Definition onresult (entries : list (string * bool)) (rt : Runtime) : Runtime :=
  let rt := set_latestTranscript (latestTranscript rt ++ finalTranscript entries ++ " ") rt in
  dispatch (setTranscribedText (latestTranscript rt)) rt.

Definition recognition_message (code : string) : string :=
  if String.eqb code "no-speech" then
    "We didn't hear you. Please ensure your microphone is working and speak clearly."
  else if String.eqb code "not-allowed" || String.eqb code "service-not-allowed" then
    "Microphone access was denied. Please check your browser permissions."
  else if String.eqb code "audio-capture" then
    "There was a problem with your microphone. Please check your hardware."
  else "An unknown microphone error occurred.".

Definition onerror (h : Hooks) (code : string) (rt : Runtime) : Runtime :=
  let errorMessage := recognition_message code in
  let rt := dispatch (setRecognitionError (Some errorMessage)) rt in
  handleAdvanceAfterRecording h rt.

(** *** The effects *)

(** The per-question set-up, dependencies
    [interviewState, currentQuestionIndex, questions.length]. *)
Definition deps_setup (h : Hooks) : InterviewState * nat * nat :=
  (interviewState h, currentQuestionIndex h, length (questions h)).

Definition effect_setup (h : Hooks) (rt : Runtime) : Runtime :=
  if bool_decide (interviewState h = inProgress)
     && Nat.ltb (currentQuestionIndex h) (length (questions h)) then
    let rt := dispatch (setInterviewPhase thinking) rt in
    let rt := dispatch (setTimer 10) rt in
    let rt := dispatch (setTranscribedText "") rt in
    let rt := set_latestTranscript "" rt in
    let rt := dispatch (setIsAdvancing false) rt in
    dispatch (setRecognitionError None) rt
  else rt.

(** [handleAdvanceAfterRecording] is a [useCallback] over
    [isAdvancing, currentQuestionIndex, questions.length]: a new function
    exactly when one of them changes. *)
Definition deps_advance (h : Hooks) : bool * nat * nat :=
  (isAdvancing h, currentQuestionIndex h, length (questions h)).

(** The effect that attaches the recognition callbacks, dependency
    [handleAdvanceAfterRecording]. *)
Definition effect_handlers (h : Hooks) (rt : Runtime) : Runtime :=
  if isTerminated rt then rt
  else if negb (hasRecognition rt) then rt
  else set_handlersAttached true rt.

Definition cleanup_handlers (rt : Runtime) : Runtime :=
  if handlersAttached rt then recognition_stop (set_handlersAttached false rt) else rt.

(** The countdown, dependencies
    [timer, interviewPhase, interviewState, handleAdvanceAfterRecording]. *)
Definition deps_timer (h : Hooks) : Z * InterviewPhase * InterviewState * (bool * nat * nat) :=
  (timer h, interviewPhase h, interviewState h, deps_advance h).

Definition effect_timer (h : Hooks) (rt : Runtime) : Runtime :=
  if negb (bool_decide (interviewState h = inProgress)) || isTerminated rt then rt
  else if (0 <? timer h)%Z then set_countdownArmed true rt
  else match interviewPhase h with
  | thinking =>
    let rt := dispatch (setInterviewPhase recording) rt in
    let rt := dispatch (setTimer 30) rt in
    recognition_start rt
  | recording => handleAdvanceAfterRecording h rt
  | idle => rt
  end.

Definition cleanup_timer (rt : Runtime) : Runtime := set_countdownArmed false rt.

(** *** The component between two events *)

Record World := mkWorld { committed : Hooks; runtime : Runtime }.

(** The mounted component: the first render has run its effects, of which
    only the one attaching the recognition callbacks does anything. *)
Definition initial (speech : bool) : World :=
  mkWorld initial_hooks (initial_runtime speech).

(** A call of a callback of the committed render. *)
Definition call (f : Hooks -> Runtime -> Runtime) (w : World) : World :=
  mkWorld (committed w) (f (committed w) (runtime w)).

(** One render: the queued updates are applied in order, then the clean-ups
    of the effects whose dependencies changed run, then those effects, in
    the order of their declaration. *)
Definition render (w : World) : World :=
  let prev := committed w in
  let next := fold_left apply (pending (runtime w)) prev in
  let rt := clear_pending (runtime w) in
  let handlers_changed := negb (bool_decide (deps_advance prev = deps_advance next)) in
  let timer_changed := negb (bool_decide (deps_timer prev = deps_timer next)) in
  let setup_changed := negb (bool_decide (deps_setup prev = deps_setup next)) in
  let rt := if handlers_changed then cleanup_handlers rt else rt in
  let rt := if timer_changed then cleanup_timer rt else rt in
  let rt := if setup_changed then effect_setup next rt else rt in
  let rt := if handlers_changed then effect_handlers next rt else rt in
  let rt := if timer_changed then effect_timer next rt else rt in
  mkWorld next rt.

(** React renders again as long as an effect has queued updates. *)
Fixpoint settle (fuel : nat) (w : World) : World :=
  match fuel with
  | 0 => w
  | S fuel' =>
    match pending (runtime w) with
    | [] => w
    | _ :: _ => settle fuel' (render w)
    end
  end.

(** What reaches the component from outside while it shows the interview:
    timeouts firing and adapter callbacks. *)
Inductive Event :=
| Tick                                      (* the one-second timeout fires *)
| WarningTimeout                            (* a 4000 ms timeout fires *)
| SpeechResult (entries : list (string * bool))
| SpeechError (code : string)
| FaceOutOfFrame.

Definition deliver (e : Event) (w : World) : World :=
  let rt := runtime w in
  match e with
  | Tick =>
    if countdownArmed rt
    then mkWorld (committed w) (dispatch setTimer_pred (set_countdownArmed false rt))
    else w
  | WarningTimeout =>
    match warningTimeouts rt with
    | 0 => w
    | S n => mkWorld (committed w) (set_warning false n rt)
    end
  | SpeechResult entries =>
    if handlersAttached rt then call (fun _ => onresult entries) w else w
  | SpeechError code =>
    if handlersAttached rt then call (fun h => onerror h code) w else w
  | FaceOutOfFrame => call handleFaceOutOfFrame w
  end.

(** An event followed by the renders it causes. *)
Definition step (w : World) (e : Event) : World := settle 8 (deliver e w).

(** *** Starting the interview: [handleStartInterview] *)

(** Up to the first [await]. *)
Definition handleStartInterview_request (h : Hooks) (rt : Runtime) : Runtime :=
  match resumeFile h with
  | None => rt
  | Some _ => dispatch (setInterviewState generating) rt
  end.

Definition start_catch (rt : Runtime) : Runtime :=
  let rt := dispatch (setError (Some "An unexpected error occurred.")) rt in
  dispatch (setInterviewState upload) rt.

(** After the two [await]s: [fileData] is how [fileToDataUrl] settled,
    [generated] how [generateQuestionsFromResume] did. *)
Definition handleStartInterview_resume (fileData : Gateway.Settled unit)
    (generated : Gateway.Settled (list string)) (rt : Runtime) : Runtime :=
  match fileData, generated with
  | Gateway.Resolved _, Gateway.Resolved generatedQuestions =>
    if Nat.ltb 0 (length generatedQuestions)
       && negb (match head generatedQuestions with
                | Some first => Js.includes (Js.toLowerCase first) "could not"
                | None => false
                end)
    then
      let rt := dispatch (setQuestions generatedQuestions) rt in
      let rt := dispatch (setAllAnswers (Js.array_fill (length generatedQuestions) "")) rt in
      dispatch (setInterviewState inProgress) rt
    else
      let rt := dispatch (setError (Some (Js.or_default (head generatedQuestions)
                  "AI could not generate questions from this resume."))) rt in
      dispatch (setInterviewState upload) rt
  | _, _ => start_catch rt
  end.

(** A whole start request: the click, the render that shows the spinner,
    the continuation, and the renders it causes. *)
Definition startInterview (fileData : Gateway.Settled unit)
    (generated : Gateway.Settled (list string)) (w : World) : World :=
  match resumeFile (committed w) with
  | None => w
  | Some _ =>
    let w := settle 8 (call handleStartInterview_request w) in
    settle 8 (call (fun _ => handleStartInterview_resume fileData generated) w)
  end.

(** *** Batch evaluation: [evaluateAllAnswers] *)

Definition placeholder : string := "[No answer recorded]".

(** [allAnswers[i] || "[No answer recorded]"] *)
Definition answer_or_placeholder (h : Hooks) (i : nat) : string :=
  Js.or_default (Js.array_get (allAnswers h) i) placeholder.

(** [Promise.all]: rejected as soon as one promise is. *)
Fixpoint promise_all {A : Type} (ps : list (Gateway.Settled A)) : Gateway.Settled (list A) :=
  match ps with
  | [] => Gateway.Resolved []
  | Gateway.Rejected reason :: _ => Gateway.Rejected reason
  | Gateway.Resolved v :: rest =>
    match promise_all rest with
    | Gateway.Resolved vs => Gateway.Resolved (v :: vs)
    | Gateway.Rejected reason => Gateway.Rejected reason
    end
  end.


(** [evaluate i q a] is how the [i]-th call [evaluateAnswer(q, a)] settles.
    A result is [{ question, answer, ...evaluatedResults[i] }]: the reply is
    spread last, and of a reply only [feedback] and [score], which is what
    the response schema asks for, are kept here; a reply carrying keys
    named [question] or [answer] would replace those of the result. *)
Definition evaluateAllAnswers
    (evaluate : nat -> string -> string -> Gateway.Settled Gateway.Evaluation)
    (h : Hooks) (rt : Runtime) : Runtime :=
  let evaluationPromises :=
    imap (fun i q => evaluate i q (answer_or_placeholder h i)) (questions h) in
  match promise_all evaluationPromises with
  | Gateway.Rejected _ => rt
  | Gateway.Resolved evaluatedResults =>
    let finalResults :=
      imap (fun i q =>
              match evaluatedResults !! i with
              | Some e => mkResult q (answer_or_placeholder h i)
                                   (Gateway.feedback e) (Gateway.score e)
              | None => mkResult q (answer_or_placeholder h i) "" 0
              end) (questions h) in
    let rt := dispatch (setInterviewResults finalResults) rt in
    dispatch (setInterviewState summarizing) rt
  end.

(** The scoring calls as the gateway answers them: [random i] and [reply i]
    are the random draw and the remote reply of the [i]-th call. *)
Definition gateway_evaluate (env : Gateway.Env) (random : nat -> nat)
    (reply : nat -> Gateway.EvaluationReply)
    : nat -> string -> string -> Gateway.Settled Gateway.Evaluation :=
  fun i q a => Gateway.evaluateAnswer env (random i) (reply i) q a.

(** The effect of the [evaluating] phase and the renders that follow. *)
Definition evaluation (env : Gateway.Env) (random : nat -> nat)
    (reply : nat -> Gateway.EvaluationReply) (w : World) : World :=
  match interviewState (committed w) with
  | evaluating => settle 8 (call (evaluateAllAnswers (gateway_evaluate env random reply)) w)
  | _ => w
  end.

(** *** [ResultsView] *)

Definition totalScore (rs : list InterviewResult) : Z :=
  fold_left (fun sum result => (sum + score result)%Z) rs 0%Z.

Definition maxScore (rs : list InterviewResult) : Z := (Z.of_nat (length rs) * 5)%Z.

Definition percentage (rs : list InterviewResult) : Js.number :=
  if (0 <? maxScore rs)%Z then Js.round_percent (totalScore rs) (maxScore rs)
  else Js.Fin 0.

(** A run of events. *)
Definition run (es : list Event) (w : World) : World := fold_left step es w.

(** *** What the renders depend on

    The updates an effect queues depend only on the snapshot, on the
    terminated flag and on the transcript buffer; [Core] keeps those and
    the queue, and [render_core] is [render] seen through it. *)

Definition setup_updates (h : Hooks) : list Update :=
  if bool_decide (interviewState h = inProgress)
     && Nat.ltb (currentQuestionIndex h) (length (questions h))
  then [setInterviewPhase thinking; setTimer 10; setTranscribedText "";
        setIsAdvancing false; setRecognitionError None]
  else [].

Definition advance_updates (h : Hooks) (terminated : bool) (transcript : string)
  : list Update :=
  if isAdvancing h || terminated then []
  else [setIsAdvancing true;
        setAllAnswers_at (currentQuestionIndex h) (Js.trim transcript);
        if (Z.of_nat (currentQuestionIndex h) <? Z.of_nat (length (questions h)) - 1)%Z
        then setCurrentQuestionIndex_succ else setInterviewState evaluating].

Definition timer_updates (h : Hooks) (terminated : bool) (transcript : string)
  : list Update :=
  if negb (bool_decide (interviewState h = inProgress)) || terminated then []
  else if (0 <? timer h)%Z then []
  else match interviewPhase h with
  | thinking => [setInterviewPhase recording; setTimer 30]
  | recording => advance_updates h terminated transcript
  | idle => []
  end.

Record Core := mkCore {
  core_hooks : Hooks;
  core_terminated : bool;
  core_transcript : string;
  core_pending : list Update
}.

Definition core (w : World) : Core :=
  mkCore (committed w) (isTerminated (runtime w)) (latestTranscript (runtime w))
         (pending (runtime w)).

Definition render_core (c : Core) : Core :=
  let prev := core_hooks c in
  let next := fold_left apply (core_pending c) prev in
  let setup := negb (bool_decide (deps_setup prev = deps_setup next)) in
  let clock := negb (bool_decide (deps_timer prev = deps_timer next)) in
  let queued := if setup then setup_updates next else [] in
  let transcript :=
    match queued with [] => core_transcript c | _ :: _ => "" end in
  mkCore next (core_terminated c) transcript
         (queued ++ if clock then timer_updates next (core_terminated c) transcript
                    else [])%list.

Fixpoint settle_core (fuel : nat) (c : Core) : Core :=
  match fuel with
  | 0 => c
  | S fuel' =>
    match core_pending c with
    | [] => c
    | _ :: _ => settle_core fuel' (render_core c)
    end
  end.

(** What the interview shows of its progress. *)
Definition view (w : World) : InterviewState * InterviewPhase * nat :=
  (interviewState (committed w), interviewPhase (committed w),
   currentQuestionIndex (committed w)).

(** A generated list the controller accepts: not empty, and its first
    element without the failure marker. *)
Definition usable (generatedQuestions : list string) : bool :=
  match generatedQuestions with
  | [] => false
  | first :: _ => negb (Js.includes (Js.toLowerCase first) "could not")
  end.

(** The queue an event leaves behind in a component that had none: [h] is
    the committed snapshot, [terminated] and [transcript] the two refs after
    the callback has run. *)
Inductive event_batch (h : Hooks) (terminated : bool) (transcript : string)
  : list Update -> Prop :=
| batch_none : event_batch h terminated transcript []
| batch_tick : event_batch h terminated transcript [setTimer_pred]
| batch_result (v : string) :
    event_batch h terminated transcript [setTranscribedText v]
| batch_error (message : string) :
    event_batch h terminated transcript
      (setRecognitionError (Some message) :: advance_updates h terminated transcript)
| batch_warning : event_batch h terminated transcript [setFaceDetectionWarnings 1].

(** What the component signals outward besides its state: the calls of
    [onTerminate] and the proctoring warning. *)
Definition signals (rt : Runtime) : list (string * string) * bool * nat :=
  (terminations rt, warningShown rt, warningTimeouts rt).

(** What an event may do to the questions and the ledger, from snapshot [h]
    to snapshot [h']. *)
Definition ledger_frame (h h' : Hooks) : Prop :=
  questions h' = questions h /\
  currentQuestionIndex h <= currentQuestionIndex h' /\
  (forall j, j <> currentQuestionIndex h ->
             Js.array_get (allAnswers h') j = Js.array_get (allAnswers h) j) /\
  (currentQuestionIndex h < length (questions h) ->
   length (allAnswers h) = length (questions h) ->
   length (allAnswers h') = length (questions h) /\
   currentQuestionIndex h' < length (questions h)).

(** The recognition error as the page prints it.  The paragraph
    [{recognitionError && <p>...</p>}] is part of [renderInProgressView],
    and [renderInterviewContent] uses that view for [inProgress] only. *)
Definition printed_recognitionError (h : Hooks) : option string :=
  match interviewState h with
  | inProgress => if Js.truthy (recognitionError h) then recognitionError h else None
  | _ => None
  end.

(** *** Events and renders in any order *)

(** The worlds a component can reach from [w0] when any number of events
    may be delivered between two renders.  As everywhere in this model, an
    event is handled by the callback of the last committed render, and a
    render runs its effects before the next event is delivered. *)
Inductive reachable (w0 : World) : World -> Prop :=
| reach_here : reachable w0 w0
| reach_event (w : World) (e : Event) : reachable w0 w -> reachable w0 (deliver e w)
| reach_render (w : World) : reachable w0 w -> reachable w0 (render w).





(** *** A session used in the examples: three questions, the first one in
    its recording window with one second left and "hello" transcribed. *)

Definition demo_start : World :=
  startInterview (Gateway.Resolved tt) (Gateway.Resolved ["Q1"; "Q2"; "Q3"])
    (mkWorld (apply initial_hooks (setResumeFile (Some (mkFile "cv.pdf" "application/pdf"))))
             (initial_runtime true)).

Definition demo_recording : World :=
  run (repeat Tick 10 ++ [SpeechResult [("hello", true)]] ++ repeat Tick 29)%list
      demo_start.

(** The arguments of the one call of [onTerminate]. *)
Definition termination_notice : string * string :=
  ("face_detection", "Interview terminated due to repeated face detection issues.").

(** The message shown when the generated list is empty. *)
Definition no_questions_message : string :=
  "AI could not generate questions from this resume.".


Definition demo_reply (i : nat) : Gateway.EvaluationReply :=
  match i with
  | 0 => Gateway.EObject (Some "Good.") (Some 4%Z)
  | _ => Gateway.EError "503"
  end.

(** *** Choosing the document: [handleFileChange] and the start button *)

Definition allowedTypes : list string :=
  [ "application/pdf";
    "application/vnd.openxmlformats-officedocument.wordprocessingml.document";
    "text/plain" ].

Definition unsupported_message : string :=
  "Unsupported file type. Please upload a PDF, DOCX, or TXT file.".

(** [files] is [event.target.files]. *)
Definition handleFileChange (files : list File) (rt : Runtime) : Runtime :=
  match files with
  | [] => rt
  | file :: _ =>
    if negb (bool_decide (type file ∈ allowedTypes))
    then dispatch (setError (Some unsupported_message)) rt
    else
      let rt := dispatch (setResumeFile (Some file)) rt in
      dispatch (setError None) rt
  end.

(** The change event of the file input and the render it causes. *)
Definition chooseFile (files : list File) (w : World) : World :=
  settle 8 (call (fun _ => handleFileChange files) w).

(** The [disabled] attribute of the start button: [!resumeFile || !!error]. *)
Definition start_disabled (h : Hooks) : bool :=
  match resumeFile h with
  | None => true
  | Some _ => Js.truthy (error h)
  end.

(** *** Reading the document: [fileToDataUrl] *)

(** [s.split(c)] for a one-character separator. *)
Fixpoint split_on (c : ascii) (s : string) : list string :=
  match s with
  | EmptyString => [EmptyString]
  | String a s' =>
    if Ascii.eqb a c then EmptyString :: split_on c s'
    else match split_on c s' with
         | piece :: pieces => String a piece :: pieces
         | [] => [String a EmptyString]
         end
  end.

Record FileData := mkFileData { base64 : string; mimeType : string }.

(** What the [FileReader] reports. *)
Inductive ReadOutcome :=
| ReadLoaded (result : string)       (* onload, with reader.result *)
| ReadFailed (reason : string).      (* onerror *)

(** The promise of [fileToDataUrl]: [None] when it never settles, which is
    what happens when the [onload] callback throws (the first piece of the
    result has no colon, so [meta.split(':')[1]] is [undefined]). *)
Definition fileToDataUrl (outcome : ReadOutcome) : option (Gateway.Settled FileData) :=
  match outcome with
  | ReadFailed reason => Some (Gateway.Rejected reason)
  | ReadLoaded result =>
    let pieces := split_on "," result in
    match pieces !! 0 with
    | None => None
    | Some meta =>
      match split_on ":" meta !! 1 with
      | None => None
      | Some after_colon =>
        match split_on ";" after_colon !! 0 with
        | None => None
        | Some mime =>
          if Js.truthy (pieces !! 1)
          then Some (Gateway.Resolved (mkFileData (default "" (pieces !! 1)) mime))
          else Some (Gateway.Rejected "Could not read file as base64.")
        end
      end
    end
  end.

(** Whether [c] occurs in [s]. *)
Fixpoint occurs (c : ascii) (s : string) : bool :=
  match s with
  | EmptyString => false
  | String a s' => Ascii.eqb a c || occurs c s'
  end.

(** The result a [FileReader] gives for a file of type [mime] whose
    contents encode to [payload]. *)
Definition data_url (mime payload : string) : string :=
  "data:" ++ mime ++ ";base64," ++ payload.

End Interview.

(** ** The application shell: [App] in [App.tsx] *)

Module App.

(** Modelled from the spec: the type [AppView] is declared in [types.ts],
    which is not among the sources; these are the views [App.tsx] names, and
    [other_view] stands for any further one. *)
Inductive AppView :=
  landing | auth | dashboard | resume_interview | mcq_test | other_view.

Definition view_text (v : AppView) : string :=
  match v with
  | landing => "landing" | auth => "auth" | dashboard => "dashboard"
  | resume_interview => "resume-interview" | mcq_test => "mcq-test"
  | other_view => "other"
  end.

Inductive Theme := light | dark.

Definition theme_text (t : Theme) : string :=
  match t with light => "light" | dark => "dark" end.

Record User := mkUser { name : string; email : string }.

(** What Firebase reports for a signed-in user. *)
Record FirebaseUser := mkFirebaseUser {
  displayName : option string;
  fbEmail : option string
}.

(** The state of [App] together with the two browser stores it uses. *)
Record State := mkState {
  user : option User;
  view : AppView;
  authLoading : bool;
  theme : Theme;
  session_appView : option string;     (* sessionStorage.getItem('appView') *)
  local_theme : option string          (* localStorage.getItem('theme') *)
}.

(** [getInitialTheme]; [prefersDark] is the media query. *)
Definition getInitialTheme (saved : option string) (prefersDark : bool) : Theme :=
  match saved with
  | Some s =>
    if String.eqb s "light" then light
    else if String.eqb s "dark" then dark
    else if prefersDark then dark else light
  | None => if prefersDark then dark else light
  end.

Definition getInitialView (saved : option string) : AppView :=
  match saved with
  | Some s => if String.eqb s "auth" then auth else landing
  | None => landing
  end.

(** The component as mounted in a browser with the given stores: the
    initial state, after the effect that writes the theme back. *)
Definition mount (session : option string) (local : option string) (prefersDark : bool)
  : State :=
  let t := getInitialTheme local prefersDark in
  mkState None (getInitialView session) true t session (Some (theme_text t)).

Definition handleSetView (newView : AppView) (s : State) : State :=
  let session :=
    match newView with
    | auth => Some (view_text newView)
    | _ => None
    end in
  mkState (user s) newView (authLoading s) (theme s) session (local_theme s).

(** [toggleTheme], with the effect on [theme] that stores it. *)
Definition toggleTheme (s : State) : State :=
  let t := match theme s with light => dark | dark => light end in
  mkState (user s) (view s) (authLoading s) t (session_appView s) (Some (theme_text t)).

(** The listener given to [onAuthStateChanged]. *)
Definition authStateChanged (firebaseUser : option FirebaseUser) (s : State) : State :=
  match firebaseUser with
  | Some fu =>
    let name := Js.or_default (displayName fu) (Js.or_default (fbEmail fu) "User") in
    mkState (Some (mkUser name (Js.or_default (fbEmail fu) "")))
            dashboard false (theme s) None (local_theme s)
  | None =>
    let v := match view s with
             | landing => landing
             | auth => auth
             | _ => landing
             end in
    mkState None v false (theme s) (session_appView s) (local_theme s)
  end.

(** [handleEndSession] *)
Definition handleEndSession (s : State) : State := handleSetView dashboard s.

(** What [renderContent] shows. *)
Inductive Page :=
  Authenticating | LandingPage | AuthPage | DashboardPage
| ResumeInterviewPage | McqTestPage.

Definition renderContent (s : State) : Page :=
  if authLoading s then Authenticating
  else match user s with
  | None => match view s with landing => LandingPage | _ => AuthPage end
  | Some _ =>
    match view s with
    | dashboard => DashboardPage
    | resume_interview => ResumeInterviewPage
    | mcq_test => McqTestPage
    | _ => DashboardPage
    end
  end.

(** [renderContent] mounts the interview page as
    [<ResumeInterviewPage onEndSession={handleEndSession} />]: whether it
    passes the [onTerminate] prop that the page declares. *)
Definition passes_onTerminate : bool := false.

(** What happens to the shell from outside. *)
Inductive Action :=
| SetView (v : AppView)
| ToggleTheme
| AuthChanged (firebaseUser : option FirebaseUser)
| EndSession.

Definition act (s : State) (a : Action) : State :=
  match a with
  | SetView v => handleSetView v s
  | ToggleTheme => toggleTheme s
  | AuthChanged fu => authStateChanged fu s
  | EndSession => handleEndSession s
  end.

(** A run of actions. *)
Definition shell_run (actions : list Action) (s : State) : State :=
  fold_left act actions s.

End App.

(** * Facts about the JavaScript values *)

Section ArrayFacts.

Implicit Types (a : Js.array) (i j : nat) (v : string).

Lemma length_array_fill n v : length (Js.array_fill n v) = n.
Proof. apply length_replicate. Qed.

Lemma array_get_fill n v i : i < n -> Js.array_get (Js.array_fill n v) i = Some v.
Proof.
  intros Hi. unfold Js.array_get, Js.array_fill.
  by rewrite lookup_replicate_2.
Qed.

Lemma length_array_set_inside a i v :
  i < length a -> length (Js.array_set a i v) = length a.
Proof.
  intros Hi. unfold Js.array_set. rewrite decide_True by done.
  apply length_insert.
Qed.

Lemma length_array_set_outside a i v :
  length a <= i -> length (Js.array_set a i v) = S i.
Proof.
  intros Hi. unfold Js.array_set. rewrite decide_False by lia.
  rewrite !length_app, length_replicate. simpl. lia.
Qed.

Lemma array_get_set_eq a i v : Js.array_get (Js.array_set a i v) i = Some v.
Proof.
  unfold Js.array_get, Js.array_set. case_decide as Hi.
  - by rewrite list_lookup_insert_eq.
  - rewrite lookup_app_r by lia.
    rewrite lookup_app_r by (rewrite length_replicate; lia).
    rewrite length_replicate.
    by replace (i - length a - (i - length a)) with 0 by lia.
Qed.

Lemma array_get_outside a j : length a <= j -> Js.array_get a j = None.
Proof.
  intros Hj. unfold Js.array_get. by rewrite lookup_ge_None_2.
Qed.

Lemma array_get_set_ne a i j v :
  i <> j -> Js.array_get (Js.array_set a i v) j = Js.array_get a j.
Proof.
  intros Hij. unfold Js.array_get, Js.array_set. case_decide as Hi.
  - by rewrite list_lookup_insert_ne.
  - destruct (decide (j < length a)) as [Hj|Hj].
    + by rewrite lookup_app_l.
    + rewrite (lookup_ge_None_2 a j) by lia.
      rewrite lookup_app_r by lia.
      destruct (decide (j - length a < i - length a)) as [Hh|Hh].
      * rewrite lookup_app_l by (rewrite length_replicate; lia).
        by rewrite lookup_replicate_2.
      * rewrite lookup_app_r by (rewrite length_replicate; lia).
        rewrite length_replicate.
        rewrite lookup_ge_None_2; [done | simpl; lia].
Qed.

Lemma truthy_Some_nonempty x :
  Js.truthy x = true <-> exists s, x = Some s /\ s <> "".
Proof.
  destruct x as [s|]; simpl.
  - destruct (String.eqb_spec s ""); simpl; split.
    + discriminate.
    + intros (s' & [= <-] & Hs). contradiction.
    + intros _. eauto.
    + done.
  - split; [discriminate | intros (s & [=] & _)].
Qed.

End ArrayFacts.

Lemma round_percent_full n : (0 < n)%Z -> Js.round_percent n n = Js.Fin 100.
Proof.
  intros Hn. unfold Js.round_percent.
  destruct (Z.eqb_spec n 0) as [->|_]; [lia |].
  f_equal. symmetry. apply Z.div_unique with (r := n); lia.
Qed.

Lemma round_percent_defined num den :
  den <> 0%Z -> exists z, Js.round_percent num den = Js.Fin z.
Proof.
  intros Hd. unfold Js.round_percent.
  destruct (Z.eqb_spec den 0); [contradiction | eauto].
Qed.

Lemma filter_iff_on {A : Type} (P Q : A -> Prop)
    `{forall x, Decision (P x)} `{forall x, Decision (Q x)} (l : list A) :
  (forall x, x ∈ l -> P x <-> Q x) -> filter P l = filter Q l.
Proof.
  induction l as [|x l IH]; intros HPQ; [done |].
  rewrite !filter_cons.
  rewrite IH by (intros y Hy; apply HPQ; by right).
  destruct (decide (P x)) as [HP|HP], (decide (Q x)) as [HQ|HQ]; try done.
  - exfalso. apply HQ, HPQ; [by left | done].
  - exfalso. apply HP, HPQ; [by left | done].
Qed.

Lemma filter_all_on {A : Type} (P : A -> Prop) `{forall x, Decision (P x)} (l : list A) :
  (forall x, x ∈ l -> P x) -> filter P l = l.
Proof.
  induction l as [|x l IH]; intros HP; [done |].
  rewrite filter_cons_True by (apply HP; by left).
  f_equal. apply IH. intros y Hy. apply HP. by right.
Qed.

(** * The quiz controller *)

Section QuizScore.
Import Gateway Mcq.

(** The running count of [handleNextQuestion] from index [k] on, as a
    count of indices. *)
Lemma count_correct_indices (qs : list MCQ) (answers : Js.array) (k : nat) :
  count_correct k qs answers =
  length (filter (fun i => Js.array_get answers i = correctAnswer <$> qs !! (i - k))
                 (seq k (length qs))).
Proof.
  revert k. induction qs as [|q rest IH]; intros k; [done |].
  cbn [count_correct length seq]. rewrite filter_cons.
  replace (k - k) with 0 by lia. cbn [lookup list_lookup fmap option_fmap option_map].
  rewrite IH.
  assert (Hrest :
    filter (fun i => Js.array_get answers i = correctAnswer <$> (q :: rest) !! (i - k))
           (seq (S k) (length rest)) =
    filter (fun i => Js.array_get answers i = correctAnswer <$> rest !! (i - S k))
           (seq (S k) (length rest))).
  { apply filter_iff_on. intros i Hi%elem_of_seq.
    replace (i - k) with (S (i - S k)) by lia. done. }
  rewrite Hrest.
  destruct (decide (Some (correctAnswer q) = Js.array_get answers k)) as [He|He];
    destruct (decide (Js.array_get answers k = Some (correctAnswer q))) as [He'|He'];
    try congruence; done.
Qed.

Lemma count_correct_matching (qs : list MCQ) (answers : Js.array) :
  count_correct 0 qs answers = length (matching_indices qs answers).
Proof.
  rewrite count_correct_indices. unfold matching_indices.
  f_equal. apply filter_iff_on. intros i _.
  by replace (i - 0) with i by lia.
Qed.

Lemma matching_indices_all (qs : list MCQ) (answers : Js.array) :
  (forall i q, qs !! i = Some q -> Js.array_get answers i = Some (correctAnswer q)) ->
  matching_indices qs answers = seq 0 (length qs).
Proof.
  intros Hall. unfold matching_indices.
  apply filter_all_on. intros i Hi%elem_of_seq.
  destruct (lookup_lt_is_Some_2 qs i) as [q Hq]; [lia |].
  rewrite Hq. simpl. eauto.
Qed.

End QuizScore.

Section QuizClaims.
Import Gateway Mcq.

Lemma percentage_all_correct (qs : list MCQ) :
  qs <> [] -> percentage (length qs) qs = Js.Fin 100.
Proof.
  intros Hqs. unfold percentage.
  destruct qs as [|q rest]; [done |]. cbn [length Nat.ltb Nat.leb].
  apply round_percent_full. lia.
Qed.

(** C7. Pressing next on the last question moves to [summarizing] with the
    score set to the number of indices at which the stored answer equals the
    question's designated correct option; when every stored answer is the
    designated correct option the score is the number of questions and the
    displayed percentage is 100. *)
Theorem next_on_last_question_scores (h : Hooks) :
  S (currentQuestionIndex h) = length (questions h) ->
  let h' := handleNextQuestion h in
  mcqState h' = summarizing /\
  questions h' = questions h /\
  score h' = length (matching_indices (questions h) (userAnswers h)) /\
  ((forall i q, questions h !! i = Some q ->
                Js.array_get (userAnswers h) i = Some (correctAnswer q)) ->
   score h' = length (questions h) /\
   percentage (score h') (questions h') = Js.Fin 100).
Proof.
  intros Hlast. unfold handleNextQuestion.
  destruct (Z.ltb_spec (Z.of_nat (currentQuestionIndex h))
                       (Z.of_nat (length (questions h)) - 1)) as [Hlt|_]; [lia |].
  cbn [mcqState questions score]. rewrite count_correct_matching.
  repeat split; try done.
  - by rewrite matching_indices_all, length_seq.
  - rewrite matching_indices_all, length_seq by done.
    apply percentage_all_correct. intros Hnil. rewrite Hnil in Hlast. done.
Qed.

Lemma next_on_last_question_scores_witness :
  score (handleNextQuestion demo_all_correct) = 10 /\
  percentage (score (handleNextQuestion demo_all_correct)) sampleMcqs = Js.Fin 100.
Proof.
  destruct (next_on_last_question_scores demo_all_correct eq_refl) as (_ & _ & _ & Hall).
  apply Hall. intros i q Hq.
  do 10 (destruct i as [|i]; [injection Hq as <-; reflexivity |]).
  discriminate Hq.
Defined.

(** The demo quiz played through the page with six correct answers. *)
Example demo_six_of_ten :
  let play := [ ClickOption 0; ClickNext; ClickOption 0; ClickNext;
                ClickOption 1; ClickNext; ClickOption 1; ClickNext;
                ClickOption 2; ClickNext; ClickOption 1; ClickNext;
                ClickOption 0; ClickNext; ClickOption 1; ClickNext;
                ClickOption 0; ClickNext; ClickOption 0; ClickOption 2; ClickNext ] in
  let h := clicks play (started DSA sampleMcqs) in
  mcqState h = summarizing /\ score h = 6 /\
  percentage (score h) (questions h) = Js.Fin 60.
Proof. vm_compute. done. Qed.

Lemma mcq_items_unusable (items : list McqItem) :
  existsb (fun item => match item with ItemComplete _ => false | _ => true end) items = true ->
  exists message, mcq_items items = Throws message.
Proof.
  induction items as [|[m| |] rest IH]; simpl; intros Hex; try discriminate; eauto.
  destruct (IH Hex) as [message ->]. eauto.
Qed.

Lemma mcq_try_unusable (reply : McqReply) :
  mcq_reply_unusable reply = true -> exists message, mcq_try reply = Throws message.
Proof.
  destruct reply as [items| |message]; simpl; eauto using mcq_items_unusable.
Qed.

Lemma generateMcqTest_resolves (env : Env) (reply : McqReply) (subject : TechnicalSubject) :
  exists fetched, generateMcqTest env reply subject = Resolved fetched.
Proof.
  unfold generateMcqTest.
  destruct (negb (isApiKeyConfigured env)); [eauto |].
  destruct (getAi env); [| eauto].
  destruct (mcq_try reply); eauto.
Qed.

(** C9. [generateMcqTest] always resolves.  With a key configured, a reply
    it cannot use makes it resolve with the one-element sentinel list, whose
    options are empty and whose correct answer is the empty string; and
    [handleSelectSubject] then shows that list as the quiz, in [inProgress],
    with a one-slot ledger: it has no branch for the failure. *)
Theorem generateMcqTest_failure_becomes_quiz
    (env : Env) (reply : McqReply) (subject : TechnicalSubject) (h : Hooks) :
  isApiKeyConfigured env = true ->
  mcq_reply_unusable reply = true ->
  (forall env' reply', exists fetched, generateMcqTest env' reply' subject = Resolved fetched) /\
  generateMcqTest env reply subject = Resolved [mcq_sentinel subject] /\
  options (mcq_sentinel subject) = [] /\
  correctAnswer (mcq_sentinel subject) = "" /\
  let h' := handleSelectSubject env reply subject h in
  mcqState h' = inProgress /\
  questions h' = [mcq_sentinel subject] /\
  userAnswers h' = [Some ""] /\
  selectedSubject h' = Some subject.
Proof.
  intros Hkey Hbad.
  assert (Hgen : generateMcqTest env reply subject = Resolved [mcq_sentinel subject]).
  { unfold generateMcqTest, getAi. rewrite Hkey. simpl.
    destruct (mcq_try_unusable reply Hbad) as [message ->]. done. }
  split; [intros; apply generateMcqTest_resolves |].
  split; [done |].
  unfold handleSelectSubject. rewrite Hgen. done.
Qed.

Lemma generateMcqTest_failure_becomes_quiz_witness :
  generateMcqTest (mkEnv (Some "key")) (MError "503 Service Unavailable") OS
    = Resolved [mcq_sentinel OS] /\
  mcqState (handleSelectSubject (mkEnv (Some "key")) (MError "503 Service Unavailable") OS initial)
    = inProgress.
Proof.
  pose proof (generateMcqTest_failure_becomes_quiz (mkEnv (Some "key"))
                (MError "503 Service Unavailable") OS initial eq_refl eq_refl)
    as (_ & Hgen & _ & _ & Hstate & _).
  split; [exact Hgen | exact Hstate].
Defined.

(** Whatever resolves is shown as the quiz. *)
Lemma handleSelectSubject_no_failure_branch
    (env : Env) (reply : McqReply) (subject : TechnicalSubject) (h : Hooks) :
  exists fetched,
    generateMcqTest env reply subject = Resolved fetched /\
    handleSelectSubject env reply subject h =
      mkHooks (Some subject) fetched (currentQuestionIndex h)
              (Js.array_fill (length fetched) "") inProgress (score h).
Proof.
  destruct (generateMcqTest_resolves env reply subject) as [fetched Hgen].
  exists fetched. split; [done |].
  unfold handleSelectSubject. by rewrite Hgen.
Qed.

End QuizClaims.

Section QuizProgress.
Import Gateway Mcq.

Lemma answered_started subject fetched : answered (started subject fetched).
Proof. split; cbn; [lia | discriminate]. Qed.

Lemma handleNextQuestion_cases (h : Hooks) :
  handleNextQuestion h =
    mkHooks (selectedSubject h) (questions h) (S (currentQuestionIndex h))
            (userAnswers h) (mcqState h) (score h)
  \/ handleNextQuestion h =
    mkHooks (selectedSubject h) (questions h) (currentQuestionIndex h)
            (userAnswers h) summarizing
            (count_correct 0 (questions h) (userAnswers h)).
Proof. unfold handleNextQuestion. destruct (_ <? _)%Z; auto. Qed.

Lemma click_cases (c : Click) (h : Hooks) :
  click c h = h
  \/ (exists option, c = ClickOption option /\ mcqState h = inProgress /\
        exists o, click c h = handleSelectAnswer o h)
  \/ (c = ClickNext /\ mcqState h = inProgress /\ next_disabled h = false /\
        click c h = handleNextQuestion h).
Proof.
  unfold click. destruct (mcqState h) eqn:Hst; auto.
  destruct (questions h !! currentQuestionIndex h); auto.
  destruct c as [k|].
  - destruct (options m !! k) as [o|]; [| by left].
    right; left. exists k. eauto.
  - destruct (next_disabled h) eqn:Hdis; [by left |].
    right; right. done.
Qed.

Lemma answered_click (c : Click) (h : Hooks) : answered h -> answered (click c h).
Proof.
  intros [Hbefore Hsubmit].
  destruct (click_cases c h) as [-> | [(k & -> & Hst & o & ->) | (-> & Hst & Hen & ->)]].
  - done.
  - split; cbn.
    + intros j Hj. rewrite array_get_set_ne by lia. auto.
    + rewrite Hst. discriminate.
  - apply negb_false_iff in Hen.
    destruct (handleNextQuestion_cases h) as [-> | ->]; split; cbn.
    + intros j Hj. destruct (decide (j = currentQuestionIndex h)) as [->|Hne]; [done |].
      apply Hbefore. lia.
    + rewrite Hst. discriminate.
    + done.
    + done.
Qed.

Lemma answered_clicks (cs : list Click) (h : Hooks) : answered h -> answered (clicks cs h).
Proof.
  revert h. induction cs as [|c cs IH]; intros h Hh; [done |].
  cbn. apply IH. by apply answered_click.
Qed.

(** C10. On the page as the user reaches it: while the stored answer at the
    current index is empty the next/submit button does nothing; whenever
    pressing it does something, every index up to the current one holds a
    non-empty answer; and once the score has been computed, so does every
    index up to the last one shown. *)
Theorem next_needs_every_answer
    (subject : TechnicalSubject) (fetched : list MCQ) (cs : list Click) :
  let h := clicks cs (started subject fetched) in
  (Js.truthy (Js.array_get (userAnswers h) (currentQuestionIndex h)) = false ->
   click ClickNext h = h) /\
  (click ClickNext h <> h ->
   forall j, j <= currentQuestionIndex h ->
             Js.truthy (Js.array_get (userAnswers h) j) = true) /\
  (mcqState h = summarizing ->
   forall j, j <= currentQuestionIndex h ->
             Js.truthy (Js.array_get (userAnswers h) j) = true).
Proof.
  intros h.
  assert (Hh : answered h) by apply answered_clicks, answered_started.
  destruct Hh as [Hbefore Hsubmit].
  assert (Hupto : Js.truthy (Js.array_get (userAnswers h) (currentQuestionIndex h)) = true ->
                  forall j, j <= currentQuestionIndex h ->
                            Js.truthy (Js.array_get (userAnswers h) j) = true).
  { intros Hcur j Hj. destruct (decide (j = currentQuestionIndex h)) as [->|Hne]; [done |].
    apply Hbefore. lia. }
  repeat split.
  - intros Hempty. unfold click, next_disabled. rewrite Hempty. cbn.
    destruct (mcqState h); try done. by destruct (questions h !! currentQuestionIndex h).
  - intros Hmoves j Hj. apply Hupto; [| done].
    destruct (click_cases ClickNext h) as [Heq | [(k & [=] & _) | (_ & _ & Hen & _)]].
    + contradiction.
    + by apply negb_false_iff in Hen.
  - intros Hst j Hj. apply Hupto; [by apply Hsubmit | done].
Qed.

Lemma next_needs_every_answer_witness :
  let h0 := clicks [ClickOption 1] (started DSA sampleMcqs) in
  let h1 := clicks [ClickOption 1; ClickNext] (started DSA sampleMcqs) in
  Js.truthy (Js.array_get (userAnswers h0) 0) = true /\ click ClickNext h1 = h1.
Proof.
  intros h0 h1. split.
  - pose proof (next_needs_every_answer DSA sampleMcqs [ClickOption 1]) as H.
    cbv zeta in H. destruct H as (_ & Hmoves & _).
    apply Hmoves; [vm_compute; discriminate | vm_compute; lia].
  - pose proof (next_needs_every_answer DSA sampleMcqs [ClickOption 1; ClickNext]) as H.
    cbv zeta in H. destruct H as (Hstay & _ & _).
    apply Hstay. reflexivity.
Defined.

(** The ledger of the quiz: its length is the number of questions after
    every click, and a click changes at most the slot of the current
    question. *)
Lemma click_ledger (c : Click) (h : Hooks) :
  length (userAnswers h) = length (questions h) ->
  length (userAnswers (click c h)) = length (questions (click c h)) /\
  questions (click c h) = questions h /\
  forall j, j <> currentQuestionIndex h ->
            Js.array_get (userAnswers (click c h)) j = Js.array_get (userAnswers h) j.
Proof.
  intros Hlen. unfold click.
  destruct (mcqState h); try done.
  destruct (questions h !! currentQuestionIndex h) as [q|] eqn:Hq; [| done].
  apply lookup_lt_Some in Hq.
  destruct c as [k|].
  - destruct (options q !! k) as [o|]; [| done]. cbn.
    rewrite length_array_set_inside by lia.
    repeat split; try done. intros j Hj. by rewrite array_get_set_ne.
  - destruct (next_disabled h); [done |].
    destruct (handleNextQuestion_cases h) as [-> | ->]; done.
Qed.

End QuizProgress.

(** * The interview controller *)

Local Open Scope list_scope.
Import Interview.

Section RuntimeFacts.
Implicit Types (h : Hooks) (rt : Runtime).

Lemma advance_pending h rt :
  pending (handleAdvanceAfterRecording h rt) =
  pending rt ++ advance_updates h (isTerminated rt) (latestTranscript rt).
Proof.
  unfold handleAdvanceAfterRecording, advance_updates. destruct rt; cbn.
  destruct (isAdvancing h || _); [by rewrite app_nil_r |].
  destruct (_ <? _)%Z; cbn; by rewrite <- !app_assoc.
Qed.

Lemma advance_refs h rt :
  isTerminated (handleAdvanceAfterRecording h rt) = isTerminated rt /\
  latestTranscript (handleAdvanceAfterRecording h rt) = latestTranscript rt /\
  signals (handleAdvanceAfterRecording h rt) = signals rt.
Proof.
  unfold handleAdvanceAfterRecording. destruct rt; cbn.
  destruct (isAdvancing h || _); [done |]. by destruct (_ <? _)%Z.
Qed.

Lemma effect_setup_pending h rt :
  pending (effect_setup h rt) = pending rt ++ setup_updates h.
Proof.
  unfold effect_setup, setup_updates. destruct rt; cbn.
  destruct (_ && _); cbn; [by rewrite <- !app_assoc | by rewrite app_nil_r].
Qed.

Lemma effect_setup_refs h rt :
  isTerminated (effect_setup h rt) = isTerminated rt /\
  latestTranscript (effect_setup h rt) =
    match setup_updates h with [] => latestTranscript rt | _ :: _ => "" end /\
  signals (effect_setup h rt) = signals rt.
Proof.
  unfold effect_setup, setup_updates. destruct rt; cbn. by destruct (_ && _).
Qed.

Lemma effect_timer_pending h rt :
  pending (effect_timer h rt) =
  pending rt ++ timer_updates h (isTerminated rt) (latestTranscript rt).
Proof.
  unfold effect_timer, timer_updates.
  destruct (_ || _); [by rewrite app_nil_r |].
  destruct (0 <? timer h)%Z; [destruct rt; cbn; by rewrite app_nil_r |].
  destruct (interviewPhase h).
  - destruct rt; cbn. by rewrite <- !app_assoc.
  - apply advance_pending.
  - by rewrite app_nil_r.
Qed.

Lemma effect_timer_refs h rt :
  isTerminated (effect_timer h rt) = isTerminated rt /\
  latestTranscript (effect_timer h rt) = latestTranscript rt /\
  signals (effect_timer h rt) = signals rt.
Proof.
  unfold effect_timer.
  destruct (_ || _); [done |].
  destruct (0 <? timer h)%Z; [by destruct rt |].
  destruct (interviewPhase h); [by destruct rt | apply advance_refs | done].
Qed.

Lemma effect_handlers_refs h rt :
  pending (effect_handlers h rt) = pending rt /\
  isTerminated (effect_handlers h rt) = isTerminated rt /\
  latestTranscript (effect_handlers h rt) = latestTranscript rt /\
  signals (effect_handlers h rt) = signals rt.
Proof.
  unfold effect_handlers. destruct rt as [? [] [] ? ? ? ? ? ? ?]; done.
Qed.

Lemma cleanup_handlers_refs rt :
  pending (cleanup_handlers rt) = pending rt /\
  isTerminated (cleanup_handlers rt) = isTerminated rt /\
  latestTranscript (cleanup_handlers rt) = latestTranscript rt /\
  signals (cleanup_handlers rt) = signals rt.
Proof.
  unfold cleanup_handlers. destruct rt as [? ? ? ? [] ? ? ? ? ?]; done.
Qed.

Lemma cleanup_timer_refs rt :
  pending (cleanup_timer rt) = pending rt /\
  isTerminated (cleanup_timer rt) = isTerminated rt /\
  latestTranscript (cleanup_timer rt) = latestTranscript rt /\
  signals (cleanup_timer rt) = signals rt.
Proof. by destruct rt. Qed.

Lemma clear_pending_refs rt :
  pending (clear_pending rt) = [] /\
  isTerminated (clear_pending rt) = isTerminated rt /\
  latestTranscript (clear_pending rt) = latestTranscript rt /\
  signals (clear_pending rt) = signals rt.
Proof. by destruct rt. Qed.

End RuntimeFacts.

Lemma render_signals (w : World) :
  signals (runtime (render w)) = signals (runtime w).
Proof.
  unfold render. cbn [runtime].
  repeat match goal with
  | |- context [if ?b then _ else _] => destruct b
  end;
  rewrite ?(proj2 (proj2 (effect_timer_refs _ _))),
          ?(proj2 (proj2 (proj2 (effect_handlers_refs _ _)))),
          ?(proj2 (proj2 (effect_setup_refs _ _))),
          ?(proj2 (proj2 (proj2 (cleanup_timer_refs _)))),
          ?(proj2 (proj2 (proj2 (cleanup_handlers_refs _))));
  apply clear_pending_refs.
Qed.

Lemma core_render (w : World) : core (render w) = render_core (core w).
Proof.
  destruct w as [h rt]. unfold core, render, render_core. cbn [committed runtime core_hooks core_pending core_terminated core_transcript].
  set (next := fold_left apply (pending rt) h).
  destruct (clear_pending_refs rt) as (Hp0 & Ht0 & Hl0 & _).
  set (rt0 := clear_pending rt) in *.
  set (hc := negb (bool_decide (deps_advance h = deps_advance next))).
  set (tc := negb (bool_decide (deps_timer h = deps_timer next))).
  set (sc := negb (bool_decide (deps_setup h = deps_setup next))).
  set (rt1 := if hc then cleanup_handlers rt0 else rt0).
  assert (H1 : pending rt1 = [] /\ isTerminated rt1 = isTerminated rt /\
               latestTranscript rt1 = latestTranscript rt).
  { subst rt1. destruct hc; [| done].
    destruct (cleanup_handlers_refs rt0) as (-> & -> & -> & _). done. }
  set (rt2 := if tc then cleanup_timer rt1 else rt1).
  assert (H2 : pending rt2 = [] /\ isTerminated rt2 = isTerminated rt /\
               latestTranscript rt2 = latestTranscript rt).
  { subst rt2. destruct tc; [| done].
    destruct (cleanup_timer_refs rt1) as (-> & -> & -> & _). done. }
  set (rt3 := if sc then effect_setup next rt2 else rt2).
  set (queued := if sc then setup_updates next else []).
  set (lt3 := match queued with [] => latestTranscript rt | _ :: _ => "" end).
  assert (H3 : pending rt3 = queued /\ isTerminated rt3 = isTerminated rt /\
               latestTranscript rt3 = lt3).
  { subst rt3 queued lt3. destruct H2 as (Hp & Ht & Hl). destruct sc; [| done].
    rewrite effect_setup_pending, Hp.
    destruct (effect_setup_refs next rt2) as (-> & -> & _). rewrite Hl. done. }
  set (rt4 := if hc then effect_handlers next rt3 else rt3).
  assert (H4 : pending rt4 = queued /\ isTerminated rt4 = isTerminated rt /\
               latestTranscript rt4 = lt3).
  { subst rt4. destruct hc; [| done].
    destruct (effect_handlers_refs next rt3) as (-> & -> & -> & _). done. }
  destruct H4 as (Hp & Ht & Hl).
  destruct tc.
  - rewrite effect_timer_pending, Hp, Ht, Hl.
    destruct (effect_timer_refs next rt4) as (-> & -> & _). by rewrite Ht, Hl.
  - by rewrite Hp, Ht, Hl, app_nil_r.
Qed.

Lemma core_settle (n : nat) (w : World) : core (settle n w) = settle_core n (core w).
Proof.
  revert w. induction n as [|n IH]; intros w; [done |].
  cbn [settle settle_core]. change (core_pending (core w)) with (pending (runtime w)).
  destruct (pending (runtime w)); [done |].
  by rewrite IH, core_render.
Qed.

Lemma settle_signals (n : nat) (w : World) :
  signals (runtime (settle n w)) = signals (runtime w).
Proof.
  revert w. induction n as [|n IH]; intros w; [done |].
  cbn [settle]. destruct (pending (runtime w)); [done |].
  by rewrite IH, render_signals.
Qed.

Lemma settle_quiescent n w : pending (runtime w) = [] -> settle n w = w.
Proof. intros H. destruct n; simpl; [done | by rewrite H]. Qed.

Lemma settle_step n w u us :
  pending (runtime w) = u :: us -> settle (S n) w = settle n (render w).
Proof. intros H. simpl. by rewrite H. Qed.

Lemma settle_core_done n c : core_pending c = [] -> settle_core n c = c.
Proof. intros H. destruct n; simpl; [done | by rewrite H]. Qed.

Lemma settle_core_step n c u us :
  core_pending c = u :: us -> settle_core (S n) c = settle_core n (render_core c).
Proof. intros H. simpl. by rewrite H. Qed.

Lemma core_step (w : World) (e : Event) :
  core (step w e) = settle_core 8 (core (deliver e w)).
Proof. apply core_settle. Qed.

(** Symbolic execution of the renders, one at a time: every test of a
    render is decided before the next render is unfolded. *)
Ltac split_cond :=
  match goal with
  | |- context [bool_decide ?P] =>
    let H := fresh "Hdec" in
    destruct (bool_decide_reflect P) as [H|H];
    [ try (exfalso; injection H; intros; first [lia | congruence | discriminate]);
      try (exfalso; discriminate H)
    | try (exfalso; apply H; first [reflexivity | f_equal; lia]) ]
  | |- context [(?a <? ?b)%Z] => destruct (Z.ltb_spec a b); try lia
  | |- context [Nat.ltb ?a ?b] => destruct (Nat.ltb_spec a b); try lia
  | |- context [Nat.eqb ?a ?b] => destruct (Nat.eqb_spec a b); try lia
  | |- context [if ?b then _ else _] => is_var b; destruct b
  end.

Local Arguments bool_decide : simpl never.
Local Arguments Z.sub : simpl never.
Local Arguments Z.ltb : simpl never.
Local Arguments Z.of_nat : simpl never.
Local Arguments Nat.ltb : simpl never.
Local Arguments Nat.leb : simpl never.
Local Arguments Nat.eqb : simpl never.
Local Arguments Js.trim : simpl never.
Local Arguments Js.array_set : simpl never.
Local Arguments Js.array_get : simpl never.
Local Arguments String.append : simpl never.
Local Arguments settle_core : simpl never.
Local Arguments settle : simpl never.

Ltac one_render :=
  first
  [ rewrite settle_core_done by reflexivity
  | erewrite settle_core_step by reflexivity;
    unfold render_core, deps_setup, deps_timer, deps_advance; cbn;
    repeat (split_cond; cbn);
    unfold setup_updates, timer_updates, advance_updates; cbn;
    repeat (split_cond; cbn) ].

Ltac ledger_facts :=
  unfold ledger_frame; cbn; repeat split; intros;
  rewrite ?length_array_set_inside by lia;
  rewrite ?array_get_set_ne by done;
  first [done | lia | discriminate | idtac].

(** An event and the renders it causes, from a component with an empty
    queue: the queue is empty again within the eight renders of [step]; the
    terminated flag is left alone; the questions are unchanged, the index
    does not decrease, no ledger slot other than the current one changes
    and the ledger keeps the length of the question list; the warning count
    changes only through the warning batch; and once terminated, neither
    the phase, nor the sub-phase, nor the index changes. *)
Lemma settle_core_event (h : Hooks) (term : bool) (lt : string) (batch : list Update) :
  event_batch h term lt batch ->
  let c' := settle_core 8 (mkCore h term lt batch) in
  let h' := core_hooks c' in
  core_pending c' = [] /\
  core_terminated c' = term /\
  ledger_frame h h' /\
  faceDetectionWarnings h' =
    match batch with
    | [setFaceDetectionWarnings v] => v
    | _ => faceDetectionWarnings h
    end /\
  (term = true ->
   interviewState h' = interviewState h /\
   interviewPhase h' = interviewPhase h /\
   currentQuestionIndex h' = currentQuestionIndex h /\
   allAnswers h' = allAnswers h).
Proof.
  intros Hbatch.
  destruct h as [rf qs i st er ph tm tx aa rs adv re fw].
  destruct Hbatch; unfold advance_updates; cbn;
    destruct st, ph, adv, term; cbn;
    repeat (split_cond; cbn);
    repeat one_render; cbn; ledger_facts.
Qed.

Lemma settle_core_warning (h : Hooks) (term : bool) (lt : string) (v : nat) :
  settle_core 8 (mkCore h term lt [setFaceDetectionWarnings v]) =
  mkCore (apply h (setFaceDetectionWarnings v)) term lt [].
Proof.
  destruct h as [rf qs i st er ph tm tx aa rs adv re fw].
  repeat one_render; reflexivity.
Qed.

(** What [deliver] leaves for the renders, for the events other than a face
    absence. *)
Lemma deliver_core (w : World) (e : Event) :
  pending (runtime w) = [] -> e <> FaceOutOfFrame ->
  exists lt batch,
    core (deliver e w) =
      mkCore (committed w) (isTerminated (runtime w)) lt batch /\
    event_batch (committed w) (isTerminated (runtime w)) lt batch /\
    (forall v, batch <> [setFaceDetectionWarnings v]) /\
    terminations (runtime (deliver e w)) = terminations (runtime w).
Proof.
  destruct w as [h [lt term hr li ha ca ws wt te pe]]. cbn. intros -> He.
  destruct e as [| |entries|code|]; [| | | |done]; unfold deliver, core; cbn.
  - destruct ca; cbn.
    + exists lt, [setTimer_pred]. repeat split; [constructor | done].
    + exists lt, []. repeat split; [constructor | done].
  - exists lt, []. destruct wt; cbn; repeat split; try constructor; done.
  - destruct ha; cbn.
    + eexists _, _. repeat split; [apply batch_result | done].
    + exists lt, []. repeat split; [constructor | done].
  - destruct ha; cbn.
    + exists lt, (setRecognitionError (Some (recognition_message code))
                  :: advance_updates h term lt).
      unfold onerror. rewrite advance_pending.
      destruct (advance_refs h (dispatch (setRecognitionError (Some (recognition_message code)))
                  (mkRuntime lt term hr li true ca ws wt te []))) as (-> & -> & Hsig).
      cbn. repeat split; [apply batch_error | done |].
      by injection Hsig.
    + exists lt, []. repeat split; [constructor | done].
Qed.

Lemma settle_terminations (n : nat) (w : World) :
  terminations (runtime (settle n w)) = terminations (runtime w).
Proof. pose proof (settle_signals n w) as H. by injection H. Qed.

Lemma core_fields (w : World) (c : Core) :
  core w = c ->
  committed w = core_hooks c /\ isTerminated (runtime w) = core_terminated c /\
  latestTranscript (runtime w) = core_transcript c /\ pending (runtime w) = core_pending c.
Proof. intros <-. done. Qed.

(** Every event other than a face absence. *)
Lemma step_event (w : World) (e : Event) :
  pending (runtime w) = [] -> e <> FaceOutOfFrame ->
  let w' := step w e in
  pending (runtime w') = [] /\
  isTerminated (runtime w') = isTerminated (runtime w) /\
  terminations (runtime w') = terminations (runtime w) /\
  faceDetectionWarnings (committed w') = faceDetectionWarnings (committed w) /\
  ledger_frame (committed w) (committed w') /\
  (isTerminated (runtime w) = true ->
   view w' = view w /\ allAnswers (committed w') = allAnswers (committed w)).
Proof.
  intros Hq He.
  destruct (deliver_core w e Hq He) as (lt & batch & Hcore & Hbatch & Hnw & Hterm).
  pose proof (settle_core_event _ _ _ _ Hbatch) as Hs. cbv zeta in Hs.
  pose proof (core_step w e) as Hstep. rewrite Hcore in Hstep.
  remember (settle_core 8 _) as c' eqn:Hc' in *. clear Hc'.
  destruct (core_fields _ _ Hstep) as (Hh & Ht & _ & Hp).
  destruct Hs as (Hp' & Ht' & Hframe & Hfw & Hfrozen).
  cbv zeta. rewrite Hh, Ht, Hp.
  split; [done |]. split; [done |].
  split; [unfold step; by rewrite settle_terminations |].
  split.
  { rewrite Hfw. destruct batch as [|[] []]; try done. by destruct (Hnw v). }
  split; [done |].
  intros Hdone. destruct (Hfrozen Hdone) as (H1 & H2 & H3 & H4).
  unfold view. rewrite Hh. by rewrite H1, H2, H3, H4.
Qed.

(** A face absence. *)
Lemma step_face (w : World) :
  pending (runtime w) = [] ->
  let h := committed w in
  let rt := runtime w in
  step w FaceOutOfFrame =
    if isTerminated rt || negb (bool_decide (interviewState h = inProgress)) then w
    else if Nat.eqb (faceDetectionWarnings h) 0 then
      mkWorld (apply h (setFaceDetectionWarnings 1))
              (set_warning true (S (warningTimeouts rt)) rt)
    else
      mkWorld h (onTerminate "face_detection"
                   "Interview terminated due to repeated face detection issues."
                   (set_isTerminated true rt)).
Proof.
  destruct w as [h [lt term hr li ha ca ws wt te pe]]. cbn. intros ->.
  unfold step, deliver, call, handleFaceOutOfFrame.
  cbn [committed runtime isTerminated faceDetectionWarnings warningTimeouts].
  destruct (term || _); [by apply settle_quiescent |].
  destruct (Nat.eqb _ 0); [| by apply settle_quiescent].
  erewrite settle_step by reflexivity.
  rewrite settle_quiescent.
  - destruct h as [rf qs i st er ph tm tx aa rs adv re fw].
    unfold render, deps_setup, deps_timer, deps_advance. cbn.
    rewrite !bool_decide_true by reflexivity. reflexivity.
  - destruct h as [rf qs i st er ph tm tx aa rs adv re fw].
    unfold render, deps_setup, deps_timer, deps_advance. cbn.
    rewrite !bool_decide_true by reflexivity. reflexivity.
Qed.

(** ** The one write of the spoken mode *)

(** An event and the renders it causes, in a session in progress with an
    empty queue: either the ledger, the index and the phase are what they
    were, or the slot of the current question has been set to the trimmed
    transcript buffer and the session has left the question, for the next
    one or for [evaluating]. *)
Lemma settle_core_event_write (h : Hooks) (term : bool) (lt : string) (batch : list Update) :
  event_batch h term lt batch ->
  interviewState h = inProgress ->
  let h' := core_hooks (settle_core 8 (mkCore h term lt batch)) in
  (allAnswers h' = allAnswers h /\
   currentQuestionIndex h' = currentQuestionIndex h /\
   interviewState h' = inProgress) \/
  (allAnswers h' = Js.array_set (allAnswers h) (currentQuestionIndex h) (Js.trim lt) /\
   (forall v, batch <> [setTranscribedText v]) /\
   (currentQuestionIndex h' = currentQuestionIndex h + 1 /\ interviewState h' = inProgress \/
    currentQuestionIndex h' = currentQuestionIndex h /\ interviewState h' = evaluating)).
Proof.
  intros Hbatch.
  destruct h as [rf qs i st er ph tm tx aa rs adv re fw]. cbn. intros ->.
  destruct Hbatch; unfold advance_updates; cbn;
    destruct ph, adv, term; cbn;
    repeat (split_cond; cbn);
    repeat one_render; cbn;
    first [ by left
          | right; split; [reflexivity |]; split; [done |];
            first [ by left | by right ] ].
Qed.

Lemma deliver_core_transcript (w : World) (e : Event) :
  pending (runtime w) = [] -> e <> FaceOutOfFrame ->
  exists lt batch,
    core (deliver e w) =
      mkCore (committed w) (isTerminated (runtime w)) lt batch /\
    event_batch (committed w) (isTerminated (runtime w)) lt batch /\
    (lt = latestTranscript (runtime w) \/ exists v, batch = [setTranscribedText v]).
Proof.
  destruct w as [h [lt term hr li ha ca ws wt te pe]]. cbn. intros -> He.
  destruct e as [| |entries|code|]; [| | | |done]; unfold deliver, core; cbn.
  - destruct ca; cbn.
    + exists lt, [setTimer_pred]. split; [done |]. split; [constructor | by left].
    + exists lt, []. split; [done |]. split; [constructor | by left].
  - exists lt, []. destruct wt; cbn; (split; [done |]); (split; [constructor | by left]).
  - destruct ha; cbn.
    + eexists _, _. split; [reflexivity |]. split; [apply batch_result | right; eauto].
    + exists lt, []. split; [done |]. split; [constructor | by left].
  - destruct ha; cbn.
    + exists lt, (setRecognitionError (Some (recognition_message code))
                  :: advance_updates h term lt).
      unfold onerror. rewrite advance_pending.
      destruct (advance_refs h (dispatch (setRecognitionError (Some (recognition_message code)))
                  (mkRuntime lt term hr li true ca ws wt te []))) as (-> & -> & _).
      cbn. split; [done |]. split; [apply batch_error | by left].
    + exists lt, []. split; [done |]. split; [constructor | by left].
Qed.

Lemma step_writes (w : World) (e : Event) :
  pending (runtime w) = [] -> interviewState (committed w) = inProgress ->
  let h := committed w in
  let h' := committed (step w e) in
  (allAnswers h' = allAnswers h /\
   currentQuestionIndex h' = currentQuestionIndex h /\
   interviewState h' = inProgress) \/
  (allAnswers h' = Js.array_set (allAnswers h) (currentQuestionIndex h)
                     (Js.trim (latestTranscript (runtime w))) /\
   (currentQuestionIndex h' = currentQuestionIndex h + 1 /\ interviewState h' = inProgress \/
    currentQuestionIndex h' = currentQuestionIndex h /\ interviewState h' = evaluating)).
Proof.
  intros Hq Hst. cbv zeta.
  assert (Hcase : e = FaceOutOfFrame \/ e <> FaceOutOfFrame)
    by (destruct e; (by left) || (by right)).
  destruct Hcase as [->|He].
  - left. rewrite step_face by done. cbv zeta.
    destruct (_ || _); [done |]. destruct (Nat.eqb _ _); [| done].
    cbn [committed]. by destruct (committed w).
  - destruct (deliver_core_transcript w e Hq He) as (lt & batch & Hcore & Hbatch & Hlt).
    pose proof (settle_core_event_write _ _ _ _ Hbatch Hst) as Hs. cbv zeta in Hs.
    pose proof (core_step w e) as Hstep. rewrite Hcore in Hstep.
    remember (settle_core 8 _) as c' eqn:Hc' in *. clear Hc'.
    destruct (core_fields _ _ Hstep) as (Hh & _). rewrite Hh.
    destruct Hs as [Hsame | (Hset & Hnot & Hmoved)]; [by left |].
    right. split; [| done].
    destruct Hlt as [<- | (v & ->)]; [done |]. by destruct (Hnot v).
Qed.

(** A step lies among the reachable worlds. *)
Lemma settle_reachable (n : nat) (w0 w : World) :
  reachable w0 w -> reachable w0 (settle n w).
Proof.
  revert w. induction n as [|n IH]; intros w Hw; [exact Hw |].
  destruct (pending (runtime w)) as [|u us] eqn:Hq.
  - by rewrite settle_quiescent.
  - erewrite settle_step by exact Hq. apply IH. by constructor.
Qed.

Lemma run_reachable (es : list Event) (w0 w : World) :
  reachable w0 w -> reachable w0 (run es w).
Proof.
  revert w. induction es as [|e es IH]; intros w Hw; [exact Hw |].
  change (run (e :: es) w) with (run es (step w e)).
  apply IH. unfold step. apply settle_reachable. by constructor.
Qed.

(** * The advance lock *)

Lemma advance_locked (h : Hooks) (rt : Runtime) :
  isAdvancing h = true -> handleAdvanceAfterRecording h rt = rt.
Proof. intros Hlock. unfold handleAdvanceAfterRecording. by rewrite Hlock. Qed.

(** Once a render has committed the first call's updates, a second call is
    a no-op: the lock holds across renders. *)
Lemma advance_after_render_is_noop (w : World) :
  pending (runtime w) = [] ->
  isAdvancing (committed w) = false -> isTerminated (runtime w) = false ->
  let w1 := render (call handleAdvanceAfterRecording w) in
  isAdvancing (committed w1) = true /\
  call handleAdvanceAfterRecording w1 = w1.
Proof.
  destruct w as [h rt]. cbn. intros Hq Hadv Hterm.
  assert (Hlock : isAdvancing (committed
            (render (call handleAdvanceAfterRecording (mkWorld h rt)))) = true).
  { unfold render, call. cbn [committed runtime]. rewrite advance_pending, Hq.
    unfold advance_updates. rewrite Hadv, Hterm. cbn.
    destruct h; cbn. by destruct (_ <? _)%Z. }
  split; [done |].
  unfold call at 1. rewrite advance_locked by done. by destruct (render _).
Qed.

(** Two calls of the callback of one render both pass the lock test: the
    write and the transition are queued twice. *)
Lemma advance_twice_same_render (h : Hooks) (rt : Runtime) :
  isAdvancing h = false -> isTerminated rt = false ->
  pending (handleAdvanceAfterRecording h (handleAdvanceAfterRecording h rt)) =
  pending rt ++ advance_updates h false (latestTranscript rt)
             ++ advance_updates h false (latestTranscript rt).
Proof.
  intros Hadv Hterm. rewrite !advance_pending.
  destruct (advance_refs h rt) as (-> & -> & _).
  by rewrite Hterm, app_assoc.
Qed.

(** C1 (evidence of the defect). In the demo session the countdown of
    question 0 reaches 0, the timer effect calls the advance routine, and a
    recognition error is delivered before React renders again: both calls
    see [isAdvancing = false], slot 0 is written twice, the index is
    incremented twice, and question 1 is never asked. *)
Theorem advance_twice_skips_a_question :
  let w := render (deliver Tick demo_recording) in
  let w' := deliver (SpeechError "no-speech") w in
  currentQuestionIndex (committed w) = 0 /\
  isAdvancing (committed w) = false /\
  pending (runtime w) =
    [setIsAdvancing true; setAllAnswers_at 0 "hello"; setCurrentQuestionIndex_succ] /\
  pending (runtime w') =
    [setIsAdvancing true; setAllAnswers_at 0 "hello"; setCurrentQuestionIndex_succ;
     setRecognitionError (Some (recognition_message "no-speech"));
     setIsAdvancing true; setAllAnswers_at 0 "hello"; setCurrentQuestionIndex_succ] /\
  currentQuestionIndex (committed (settle 8 w')) = 2 /\
  interviewPhase (committed (settle 8 w')) = thinking /\
  allAnswers (committed (settle 8 w')) = [Some "hello"; Some ""; Some ""].
Proof. vm_compute. repeat split. Qed.

(** * The proctoring policy *)

Lemma run_terminated (es : list Event) (w : World) :
  pending (runtime w) = [] -> isTerminated (runtime w) = true ->
  pending (runtime (run es w)) = [] /\
  isTerminated (runtime (run es w)) = true /\
  view (run es w) = view w /\
  terminations (runtime (run es w)) = terminations (runtime w) /\
  allAnswers (committed (run es w)) = allAnswers (committed w).
Proof.
  revert w. induction es as [|e es IH]; intros w Hq Hterm; [done |].
  change (run (e :: es) w) with (run es (step w e)).
  assert (Hstep : pending (runtime (step w e)) = [] /\
                  isTerminated (runtime (step w e)) = true /\
                  view (step w e) = view w /\
                  terminations (runtime (step w e)) = terminations (runtime w) /\
                  allAnswers (committed (step w e)) = allAnswers (committed w)).
  { assert (Hcase : e = FaceOutOfFrame \/ e <> FaceOutOfFrame)
      by (destruct e; (by left) || (by right)).
    destruct Hcase as [->|He].
    - rewrite step_face by done. cbv zeta. by rewrite Hterm.
    - destruct (step_event w e Hq He) as (Hq' & Ht' & Hte' & _ & _ & Hfrozen).
      destruct (Hfrozen Hterm) as (Hview & Hans).
      by rewrite Ht', Hterm. }
  destruct Hstep as (Hq' & Ht' & Hv' & Hte' & Ha').
  destruct (IH _ Hq' Ht') as (? & ? & ? & ? & ?).
  repeat split; try done; congruence.
Qed.

(** The proctoring policy when every event meets a render of its own and
    the parent passes the [onTerminate] prop.  In a session that is in
    progress and not terminated, the first face absence sets the violation
    count to 1, shows the warning with a timeout pending that hides it, and
    changes neither the phase, the sub-phase nor the index; a face absence
    met with a count of at least 1 sets the terminated flag and calls the
    termination callback once, with the state untouched; and after that no
    timeout and no adapter callback changes the phase, the sub-phase or the
    index, or calls the callback again. *)
Theorem second_face_absence_terminates (w b : World) (es : list Event) :
  pending (runtime w) = [] ->
  interviewState (committed w) = inProgress ->
  isTerminated (runtime w) = false ->
  faceDetectionWarnings (committed w) = 0 ->
  pending (runtime b) = [] ->
  interviewState (committed b) = inProgress ->
  isTerminated (runtime b) = false ->
  1 <= faceDetectionWarnings (committed b) ->
  let w1 := step w FaceOutOfFrame in
  let b1 := step b FaceOutOfFrame in
  let b2 := run es b1 in
  (faceDetectionWarnings (committed w1) = 1 /\
   view w1 = view w /\
   pending (runtime w1) = [] /\
   isTerminated (runtime w1) = false /\
   terminations (runtime w1) = terminations (runtime w) /\
   warningShown (runtime w1) = true /\
   warningTimeouts (runtime w1) = S (warningTimeouts (runtime w)) /\
   warningShown (runtime (step w1 WarningTimeout)) = false) /\
  (isTerminated (runtime b1) = true /\
   terminations (runtime b1) = terminations (runtime b) ++ [termination_notice] /\
   committed b1 = committed b) /\
  (view b2 = view b /\
   isTerminated (runtime b2) = true /\
   terminations (runtime b2) = terminations (runtime b1)).
Proof.
  intros Hwq Hwst Hwt Hwc Hbq Hbst Hbt Hbc. cbv zeta.
  rewrite (step_face w Hwq), (step_face b Hbq). cbv zeta.
  rewrite Hwst, Hwt, Hwc, Hbst, Hbt.
  rewrite bool_decide_true by done. cbn [orb negb].
  destruct (Nat.eqb_spec (faceDetectionWarnings (committed b)) 0) as [Hz|_]; [lia |].
  change (Nat.eqb 0 0) with true. cbv iota.
  destruct w as [hw [lt term hr li ha ca ws wt te pe]].
  destruct b as [hb [lt' term' hr' li' ha' ca' ws' wt' te' pe']].
  cbn in Hwq, Hwst, Hwt, Hwc, Hbq, Hbst, Hbt, Hbc. subst pe pe' term term'.
  split; [| split].
  - destruct hw as [rf qs i st er ph tm tx aa rs adv re fw].
    cbn in Hwst, Hwc. subst st fw.
    unfold step at 1, deliver. cbn [runtime warningTimeouts set_warning].
    rewrite settle_quiescent by reflexivity. cbn. done.
  - done.
  - match goal with |- context [run es ?x] => set (b1 := x) end.
    destruct (run_terminated es b1) as (_ & Ht & Hv & Hte & _); [done | done |].
    by rewrite Hv, Ht, Hte.
Qed.

(** The demo session meets two face absences, ticks apart, and then more
    ticks and a recognition error. *)
Lemma second_face_absence_terminates_witness :
  let w1 := step demo_recording FaceOutOfFrame in
  let b1 := step (step w1 Tick) FaceOutOfFrame in
  let b2 := run [Tick; Tick; SpeechError "no-speech"; FaceOutOfFrame] b1 in
  faceDetectionWarnings (committed w1) = 1 /\
  terminations (runtime b1) = [termination_notice] /\
  view b2 = (inProgress, thinking, 1) /\
  terminations (runtime b2) = [termination_notice].
Proof.
  pose proof (second_face_absence_terminates demo_recording
                (step (step demo_recording FaceOutOfFrame) Tick)
                [Tick; Tick; SpeechError "no-speech"; FaceOutOfFrame]
                eq_refl eq_refl eq_refl eq_refl eq_refl eq_refl eq_refl
                (le_n 1)) as H.
  cbv zeta in H. destruct H as ((Hc & _) & (_ & Hte & _) & (Hv & _ & Hte')).
  cbv zeta.
  split; [exact Hc |]. split; [exact Hte |].
  split; [rewrite Hv; reflexivity | rewrite Hte'; exact Hte].
Defined.

(** Two face absences that meet the same render both read a count of 0:
    the warning is queued twice, the flag stays down and the callback is
    not called. *)
Lemma two_absences_same_render (h : Hooks) (rt : Runtime) :
  isTerminated rt = false -> interviewState h = inProgress ->
  faceDetectionWarnings h = 0 ->
  let rt2 := handleFaceOutOfFrame h (handleFaceOutOfFrame h rt) in
  isTerminated rt2 = false /\
  terminations rt2 = terminations rt /\
  pending rt2 = pending rt ++ [setFaceDetectionWarnings 1; setFaceDetectionWarnings 1].
Proof.
  intros Hterm Hst Hcount. destruct rt as [lt term hr li ha ca ws wt te pe].
  cbn in Hterm. subst term. unfold handleFaceOutOfFrame.
  cbn [isTerminated dispatch set_warning]. rewrite Hst, Hcount.
  rewrite bool_decide_true by done. change (Nat.eqb 0 0) with true.
  cbn. by rewrite <- app_assoc.
Qed.

(** C2 (evidence of the defect). The demo session has met one face
    absence: the count is 1 and nothing else has changed.  Then:
    - the countdown reaches 0 and the timer effect calls the advance
      routine; the second absence arrives before React renders again.  It
      sets the flag and calls the callback, and the render that follows
      still applies the advance: the index moves from 0 to 1, slot 0 is
      written, and the set-up effect, which does not consult the flag, puts
      the session into a thinking window whose countdown never starts;
    - the same on the last question: the render that follows the
      termination moves the session to [evaluating], and the evaluation
      effect, which does not consult the flag either, takes it on to
      [summarizing];
    - two absences that meet the same render both read a count of 0: the
      session is not terminated and the callback is not called;
    - [App] mounts the page without the [onTerminate] prop: the second
      absence sets the flag and then throws, and no callback is called. *)
Theorem face_absence_does_not_stop_the_session :
  let w0 := step demo_recording FaceOutOfFrame in
  let queued := render (deliver Tick w0) in
  let wa := deliver FaceOutOfFrame queued in
  let wb := settle 8 (deliver FaceOutOfFrame (deliver FaceOutOfFrame demo_recording)) in
  let last := step (run (repeat Tick 79) (step demo_recording Tick)) FaceOutOfFrame in
  let wl := deliver FaceOutOfFrame (render (deliver Tick last)) in
  (faceDetectionWarnings (committed w0) = 1 /\
   isTerminated (runtime w0) = false /\
   view w0 = (inProgress, recording, 0) /\
   pending (runtime w0) = []) /\
  (pending (runtime queued) =
     [setIsAdvancing true; setAllAnswers_at 0 "hello"; setCurrentQuestionIndex_succ] /\
   isTerminated (runtime wa) = true /\
   terminations (runtime wa) = [termination_notice] /\
   view wa = (inProgress, recording, 0) /\
   view (settle 8 wa) = (inProgress, thinking, 1) /\
   timer (committed (settle 8 wa)) = 10%Z /\
   countdownArmed (runtime (settle 8 wa)) = false /\
   allAnswers (committed (settle 8 wa)) = [Some "hello"; Some ""; Some ""]) /\
  (view last = (inProgress, recording, 2) /\
   faceDetectionWarnings (committed last) = 1 /\
   isTerminated (runtime wl) = true /\
   terminations (runtime wl) = [termination_notice] /\
   interviewState (committed wl) = inProgress /\
   interviewState (committed (settle 8 wl)) = evaluating /\
   interviewState (committed (evaluation (Gateway.mkEnv None) (fun _ => 0) demo_reply
                                (settle 8 wl))) = summarizing) /\
  (faceDetectionWarnings (committed wb) = 1 /\
   isTerminated (runtime wb) = false /\
   terminations (runtime wb) = [] /\
   view wb = (inProgress, recording, 0)) /\
  (App.passes_onTerminate = false /\
   handleFaceOutOfFrame_mounted App.passes_onTerminate (committed w0) (runtime w0) =
     (set_isTerminated true (runtime w0),
      Some "TypeError: onTerminate is not a function") /\
   terminations (set_isTerminated true (runtime w0)) = []).
Proof. vm_compute. repeat split. Qed.

(** With the prop passed, [handleFaceOutOfFrame_mounted] is
    [handleFaceOutOfFrame]. *)
Lemma handleFaceOutOfFrame_passed (h : Hooks) (rt : Runtime) :
  handleFaceOutOfFrame_mounted true h rt = (handleFaceOutOfFrame h rt, None).
Proof.
  unfold handleFaceOutOfFrame_mounted, handleFaceOutOfFrame.
  destruct (_ || _); [done |]. by destruct (Nat.eqb _ _).
Qed.

(** * Recognition errors *)

Lemma settle_core_error_recording (h : Hooks) (lt message : string) :
  interviewState h = inProgress -> interviewPhase h = recording ->
  isAdvancing h = false -> (0 < timer h)%Z ->
  let c' := settle_core 8
              (mkCore h false lt
                 (setRecognitionError (Some message) :: advance_updates h false lt)) in
  let h' := core_hooks c' in
  core_pending c' = [] /\
  if (Z.of_nat (currentQuestionIndex h) <? Z.of_nat (length (questions h)) - 1)%Z
  then interviewState h' = inProgress /\
       currentQuestionIndex h' = currentQuestionIndex h + 1 /\
       interviewPhase h' = thinking /\ timer h' = 10%Z /\
       isAdvancing h' = false /\ recognitionError h' = None
  else interviewState h' = evaluating /\
       currentQuestionIndex h' = currentQuestionIndex h /\
       recognitionError h' = Some message.
Proof.
  destruct h as [rf qs i st er ph tm tx aa rs adv re fw]. cbn.
  intros -> -> -> Htm. unfold advance_updates. cbn.
  split_cond; repeat one_render; cbn; repeat split.
Qed.

(** What [rec.onerror] does.  A recognition error delivered during
    recording, with the countdown still above 0: the render that follows
    holds the fixed message of the error code, has slot [i] of the ledger
    set to the trimmed transcript buffer (the empty string when nothing
    was buffered), and has moved to the next index, or to [evaluating] from
    the last one; the countdown was not consulted.  The session is not
    terminated, the termination callback is not called, and the next
    question, when there is one, starts in its thinking window. *)
Theorem recognition_error_advances (w : World) (code : string) :
  pending (runtime w) = [] ->
  handlersAttached (runtime w) = true ->
  isTerminated (runtime w) = false ->
  interviewState (committed w) = inProgress ->
  interviewPhase (committed w) = recording ->
  isAdvancing (committed w) = false ->
  (0 < timer (committed w))%Z ->
  let h := committed w in
  let i := currentQuestionIndex h in
  let shown := committed (render (deliver (SpeechError code) w)) in
  let after := step w (SpeechError code) in
  recognitionError shown = Some (recognition_message code) /\
  timer shown = timer h /\
  allAnswers shown = Js.array_set (allAnswers h) i (Js.trim (latestTranscript (runtime w))) /\
  (latestTranscript (runtime w) = "" -> Js.array_get (allAnswers shown) i = Some "") /\
  (if (Z.of_nat i <? Z.of_nat (length (questions h)) - 1)%Z
   then interviewState shown = inProgress /\ currentQuestionIndex shown = i + 1 /\
        interviewState (committed after) = inProgress /\
        currentQuestionIndex (committed after) = i + 1 /\
        interviewPhase (committed after) = thinking /\
        timer (committed after) = 10%Z
   else interviewState shown = evaluating /\ currentQuestionIndex shown = i /\
        interviewState (committed after) = evaluating) /\
  pending (runtime after) = [] /\
  isTerminated (runtime after) = false /\
  terminations (runtime after) = terminations (runtime w) /\
  recognition_message "not-allowed" =
    "Microphone access was denied. Please check your browser permissions.".
Proof.
  intros Hq Hha Hterm Hst Hph Hadv Htm. cbv zeta.
  destruct (step_event w (SpeechError code) Hq ltac:(discriminate))
    as (Hq' & Ht' & Hte' & _ & _ & _).
  pose proof (core_step w (SpeechError code)) as Hcore.
  assert (Hdeliver : core (deliver (SpeechError code) w) =
            mkCore (committed w) false (latestTranscript (runtime w))
              (setRecognitionError (Some (recognition_message code))
               :: advance_updates (committed w) false (latestTranscript (runtime w)))).
  { destruct w as [h [lt term hr li ha ca ws wt te pe]].
    cbn in Hq, Hha, Hterm. subst pe ha term.
    unfold deliver, call, onerror, core. cbn [runtime committed handlersAttached].
    rewrite advance_pending.
    destruct (advance_refs h (dispatch (setRecognitionError (Some (recognition_message code)))
                (mkRuntime lt false hr li true ca ws wt te []))) as (-> & -> & _).
    reflexivity. }
  rewrite Hdeliver in Hcore.
  pose proof (settle_core_error_recording (committed w) (latestTranscript (runtime w))
                (recognition_message code) Hst Hph Hadv Htm) as Hs.
  cbv zeta in Hs.
  remember (settle_core 8 _) as c' eqn:Hc' in *. clear Hc'.
  destruct (core_fields _ _ Hcore) as (Hh & _ & _ & _).
  destruct Hs as (_ & Hs). rewrite <- Hh in Hs.
  assert (Hshown : committed (render (deliver (SpeechError code) w)) =
            fold_left apply
              (setRecognitionError (Some (recognition_message code))
               :: advance_updates (committed w) false (latestTranscript (runtime w)))
              (committed w)).
  { pose proof (core_fields _ _ Hdeliver) as (Hd1 & _ & _ & Hd4).
    cbn [core_hooks core_pending] in Hd1, Hd4. unfold render. cbn [committed]. by rewrite Hd1, Hd4. }
  rewrite Hshown. unfold advance_updates. rewrite Hadv. cbn [orb].
  rewrite Ht', Hte', Hterm.
  destruct (Z.of_nat (currentQuestionIndex (committed w)) <?
            Z.of_nat (length (questions (committed w))) - 1)%Z;
    destruct (committed w) as [rf qs i st er ph tm tx aa rs adv re fw];
    cbn in Hst, Hph, Hadv, Htm, Hs |- *; subst st ph adv;
    (split; [done |]); (split; [done |]); (split; [done |]);
    (split; [intros ->; apply array_get_set_eq |]);
    (split; [tauto |]); done.
Qed.

Lemma recognition_error_advances_witness :
  let shown := committed (render (deliver (SpeechError "not-allowed") demo_recording)) in
  recognitionError shown =
    Some "Microphone access was denied. Please check your browser permissions." /\
  allAnswers shown = [Some "hello"; Some ""; Some ""] /\
  timer shown = 1%Z.
Proof.
  pose proof (recognition_error_advances demo_recording "not-allowed"
                eq_refl eq_refl eq_refl eq_refl eq_refl eq_refl eq_refl) as H.
  cbv zeta in H. destruct H as (Hmsg & Htm & Hans & _).
  cbv zeta. split; [exact Hmsg |]. split; [exact Hans | exact Htm].
Defined.

(** C5 (evidence of the defect). A recognition error delivered during
    recording, with the countdown still above 0.  The handler does what the
    claim says: it sets the fixed message of the error code and advances at
    once, so that slot [i] of the ledger holds the trimmed transcript
    buffer and the session is not terminated.  But the message does not
    stay: from any question but the last, the advance starts the next
    question, whose set-up effect clears the message again, and when the
    renders have settled the page prints none; from the last question the
    session is in [evaluating], whose view has no place for the message,
    in the render that holds it and afterwards. *)
Theorem recognition_error_is_not_shown (w : World) (code : string) :
  pending (runtime w) = [] ->
  handlersAttached (runtime w) = true ->
  isTerminated (runtime w) = false ->
  interviewState (committed w) = inProgress ->
  interviewPhase (committed w) = recording ->
  isAdvancing (committed w) = false ->
  (0 < timer (committed w))%Z ->
  let h := committed w in
  let i := currentQuestionIndex h in
  let shown := committed (render (deliver (SpeechError code) w)) in
  let after := step w (SpeechError code) in
  recognitionError shown = Some (recognition_message code) /\
  allAnswers (committed after) =
    Js.array_set (allAnswers h) i (Js.trim (latestTranscript (runtime w))) /\
  isTerminated (runtime after) = false /\
  pending (runtime after) = [] /\
  printed_recognitionError (committed after) = None /\
  (if (Z.of_nat i <? Z.of_nat (length (questions h)) - 1)%Z
   then currentQuestionIndex (committed after) = i + 1 /\
        interviewState (committed after) = inProgress /\
        recognitionError (committed after) = None
   else interviewState shown = evaluating /\
        printed_recognitionError shown = None /\
        interviewState (committed after) = evaluating).
Proof.
  intros Hq Hha Hterm Hst Hph Hadv Htm. cbv zeta.
  destruct (recognition_error_advances w code Hq Hha Hterm Hst Hph Hadv Htm)
    as (Hmsg & _ & _ & _ & Hmoved & Hq' & Hterm' & _).
  pose proof (step_writes w (SpeechError code) Hq Hst) as Hwrite. cbv zeta in Hwrite.
  pose proof (core_step w (SpeechError code)) as Hcore.
  assert (Hdeliver : core (deliver (SpeechError code) w) =
            mkCore (committed w) false (latestTranscript (runtime w))
              (setRecognitionError (Some (recognition_message code))
               :: advance_updates (committed w) false (latestTranscript (runtime w)))).
  { destruct w as [h [lt term hr li ha ca ws wt te pe]].
    cbn in Hq, Hha, Hterm. subst pe ha term.
    unfold deliver, call, onerror, core. cbn [runtime committed handlersAttached].
    rewrite advance_pending.
    destruct (advance_refs h (dispatch (setRecognitionError (Some (recognition_message code)))
                (mkRuntime lt false hr li true ca ws wt te []))) as (-> & -> & _).
    reflexivity. }
  rewrite Hdeliver in Hcore.
  pose proof (settle_core_error_recording (committed w) (latestTranscript (runtime w))
                (recognition_message code) Hst Hph Hadv Htm) as Hs.
  cbv zeta in Hs.
  remember (settle_core 8 _) as c' eqn:Hc' in *. clear Hc'.
  destruct (core_fields _ _ Hcore) as (Hh & _ & _ & _).
  destruct Hs as (_ & Hs). rewrite <- Hh in Hs.
  remember (committed (step w (SpeechError code))) as h' eqn:Hh'. clear Hh' Hh Hcore.
  remember (committed (render (deliver (SpeechError code) w))) as hs eqn:Hhs.
  clear Hhs Hdeliver.
  split; [done |].
  destruct (Z.of_nat (currentQuestionIndex (committed w)) <?
            Z.of_nat (length (questions (committed w))) - 1)%Z.
  - destruct Hs as (Hst' & Hi' & _ & _ & _ & Hre').
    split.
    { destruct Hwrite as [(_ & Hsame & _) | (Hset & _)]; [lia | done]. }
    split; [done |]. split; [done |].
    split; [| done].
    unfold printed_recognitionError. by rewrite Hst', Hre'.
  - destruct Hs as (Hst' & Hi' & _).
    destruct Hmoved as (Hshown & _ & _).
    split.
    { destruct Hwrite as [(_ & _ & Hin) | (Hset & _)]; [congruence | done]. }
    split; [done |]. split; [done |].
    unfold printed_recognitionError. rewrite Hst', Hshown. done.
Qed.

Lemma recognition_error_is_not_shown_witness :
  let after := step demo_recording (SpeechError "not-allowed") in
  printed_recognitionError (committed after) = None /\
  allAnswers (committed after) = [Some "hello"; Some ""; Some ""] /\
  view after = (inProgress, thinking, 1).
Proof.
  pose proof (recognition_error_is_not_shown demo_recording "not-allowed"
                eq_refl eq_refl eq_refl eq_refl eq_refl eq_refl eq_refl) as H.
  cbv zeta in H. destruct H as (_ & Hans & _ & _ & Hprinted & _).
  cbv zeta. split; [exact Hprinted |]. split; [rewrite Hans; reflexivity | reflexivity].
Defined.

(** * Starting the interview *)

Lemma settle_core_single_state (h : Hooks) (term : bool) (lt : string)
    (st : InterviewState) :
  st <> inProgress ->
  settle_core 8 (mkCore h term lt [setInterviewState st]) =
  mkCore (apply h (setInterviewState st)) term lt [].
Proof.
  intros Hst.
  destruct h as [rf qs i st0 er ph tm tx aa rs adv re fw].
  destruct st; try done; repeat one_render; reflexivity.
Qed.

Lemma settle_core_start_success (h : Hooks) (term : bool) (lt : string)
    (generated : list string) :
  (0 < timer h)%Z ->
  let c' := settle_core 8
              (mkCore h term lt
                 [setQuestions generated;
                  setAllAnswers (Js.array_fill (length generated) "");
                  setInterviewState inProgress]) in
  core_pending c' = [] /\
  interviewState (core_hooks c') = inProgress /\
  questions (core_hooks c') = generated /\
  allAnswers (core_hooks c') = Js.array_fill (length generated) "" /\
  currentQuestionIndex (core_hooks c') = currentQuestionIndex h /\
  (interviewState h <> inProgress -> currentQuestionIndex h < length generated ->
   interviewPhase (core_hooks c') = thinking /\ timer (core_hooks c') = 10%Z /\
   isAdvancing (core_hooks c') = false).
Proof.
  destruct h as [rf qs i st er ph tm tx aa rs adv re fw]. cbn. intros Htm.
  repeat one_render; cbn; repeat split; intros; first [done | lia | congruence].
Qed.

Lemma settle_core_start_failure (h : Hooks) (term : bool) (lt : string)
    (message : string) :
  settle_core 8 (mkCore h term lt [setError (Some message); setInterviewState upload]) =
  mkCore (apply (apply h (setError (Some message))) (setInterviewState upload)) term lt [].
Proof.
  destruct h as [rf qs i st er ph tm tx aa rs adv re fw].
  repeat one_render; reflexivity.
Qed.

Lemma dispatch_core (h : Hooks) (rt : Runtime) (u : Update) :
  core (mkWorld h (dispatch u rt)) =
  mkCore h (isTerminated rt) (latestTranscript rt) (pending rt ++ [u]).
Proof. by destruct rt. Qed.

(** The world after the click on start and the render that shows the
    spinner. *)
Lemma start_request_core (w : World) (f : File) :
  pending (runtime w) = [] -> resumeFile (committed w) = Some f ->
  core (settle 8 (call handleStartInterview_request w)) =
  mkCore (apply (committed w) (setInterviewState generating))
         (isTerminated (runtime w)) (latestTranscript (runtime w)) [].
Proof.
  destruct w as [h rt]. cbn [committed runtime]. intros Hq Hf.
  rewrite core_settle. unfold call, handleStartInterview_request.
  cbn [committed runtime]. rewrite Hf, dispatch_core, Hq. cbn [app].
  by apply settle_core_single_state.
Qed.

(** C3. A start request with a document selected, from a component whose
    queue is empty and whose countdown value is positive (it is 10 until the
    first question starts): when the generated list is not empty and its
    first element, in lower case, does not contain "could not", the session
    is [inProgress] with the generated questions and a ledger of that many
    empty strings; otherwise it is back in [upload] with an error message,
    the failing first element or the fixed message for an empty list, and
    its questions and ledger are what they were, so empty on a first
    attempt. *)
Theorem start_request_outcome (w : World) (f : File) (generated : list string) :
  pending (runtime w) = [] ->
  resumeFile (committed w) = Some f ->
  (0 < timer (committed w))%Z ->
  let h' := committed (startInterview (Gateway.Resolved tt) (Gateway.Resolved generated) w) in
  if usable generated
  then interviewState h' = inProgress /\
       questions h' = generated /\
       allAnswers h' = Js.array_fill (length generated) "" /\
       length (allAnswers h') = length (questions h')
  else interviewState h' = upload /\
       error h' = Some (Js.or_default (head generated) no_questions_message) /\
       questions h' = questions (committed w) /\
       allAnswers h' = allAnswers (committed w) /\
       (committed w = apply initial_hooks (setResumeFile (Some f)) ->
        questions h' = [] /\ allAnswers h' = []).
Proof.
  intros Hq Hf Htm. cbv zeta. unfold startInterview. rewrite Hf.
  pose proof (start_request_core w f Hq Hf) as Hreq.
  remember (settle 8 (call handleStartInterview_request w)) as w1 eqn:Hw1. clear Hw1.
  destruct w1 as [h1 rt1]. destruct (core_fields _ _ Hreq) as (Hh1 & Ht1 & Hl1 & Hp1).
  cbn [committed runtime core_hooks core_terminated core_transcript core_pending] in *.
  set (w2 := call _ (mkWorld h1 rt1)).
  pose proof (core_settle 8 w2) as Hs.
  assert (Htm1 : (0 < timer h1)%Z) by (subst h1; by destruct (committed w)).
  assert (Hw2 : core w2 =
    mkCore h1 (isTerminated rt1) (latestTranscript rt1)
      (if usable generated
       then [setQuestions generated;
             setAllAnswers (Js.array_fill (length generated) "");
             setInterviewState inProgress]
       else [setError (Some (Js.or_default (head generated) no_questions_message));
             setInterviewState upload])).
  { subst w2. unfold call, handleStartInterview_resume, usable, core.
    cbn [committed runtime].
    destruct generated as [|first rest].
    - change (Nat.ltb 0 (length (@nil string))) with false. cbn [andb head].
      destruct rt1; cbn in *; by subst.
    - change (Nat.ltb 0 (length (first :: rest))) with true. cbn [andb head].
      destruct (Js.includes (Js.toLowerCase first) "could not"); cbn [negb];
        destruct rt1; cbn in *; by subst. }
  rewrite Hw2 in Hs. clear Hw2.
  destruct (usable generated).
  - pose proof (settle_core_start_success h1 (isTerminated rt1) (latestTranscript rt1)
                  generated Htm1) as Hok.
    cbv zeta in Hok.
    remember (settle_core 8 _) as c' eqn:Hc' in *. clear Hc'.
    destruct (core_fields _ _ Hs) as (-> & _).
    destruct Hok as (_ & -> & -> & -> & _).
    repeat split. by rewrite length_array_fill.
  - rewrite settle_core_start_failure in Hs.
    destruct (core_fields _ _ Hs) as (-> & _). subst h1.
    destruct (committed w); cbn.
    split; [done |]. split; [done |]. split; [done |]. split; [done |].
    intros Hfresh. injection Hfresh; intros; subst. done.
Qed.

Lemma start_request_outcome_witness :
  let w := mkWorld (apply initial_hooks (setResumeFile (Some (mkFile "cv.pdf" "application/pdf"))))
                   (initial_runtime true) in
  let ok := committed (startInterview (Gateway.Resolved tt)
                         (Gateway.Resolved ["Q1"; "Q2"; "Q3"]) w) in
  let ko := committed (startInterview (Gateway.Resolved tt)
                         (Gateway.Resolved ["Could not connect to the AI service."]) w) in
  (interviewState ok = inProgress /\ allAnswers ok = [Some ""; Some ""; Some ""]) /\
  (interviewState ko = upload /\ questions ko = [] /\ allAnswers ko = [] /\
   error ko = Some "Could not connect to the AI service.").
Proof.
  intros w. split.
  - pose proof (start_request_outcome w (mkFile "cv.pdf" "application/pdf")
                  ["Q1"; "Q2"; "Q3"] eq_refl eq_refl eq_refl) as H.
    cbv zeta in H. change (usable ["Q1"; "Q2"; "Q3"]) with true in H. cbv iota in H.
    destruct H as (Hst & _ & Hans & _). split; [exact Hst | exact Hans].
  - pose proof (start_request_outcome w (mkFile "cv.pdf" "application/pdf")
                  ["Could not connect to the AI service."] eq_refl eq_refl eq_refl) as H.
    cbv zeta in H.
    change (usable ["Could not connect to the AI service."]) with false in H. cbv iota in H.
    destruct H as (Hst & Herr & _ & _ & Hfresh).
    destruct (Hfresh eq_refl) as (Hqs & Hans).
    split; [exact Hst |]. split; [exact Hqs |]. split; [exact Hans | exact Herr].
Defined.

(** * Batch evaluation *)







(** * The results views *)

(** C8. With no questions, both results views show 0 percent; and whatever
    the score and the results, neither view divides by zero: the displayed
    percentage is always a finite number. *)
Theorem percentage_without_questions :
  (forall score, Mcq.percentage score [] = Js.Fin 0) /\
  percentage [] = Js.Fin 0 /\
  (forall score qs, exists z, Mcq.percentage score qs = Js.Fin z) /\
  (forall rs, exists z, percentage rs = Js.Fin z).
Proof.
  split; [done |]. split; [done |]. split.
  - intros score qs. unfold Mcq.percentage.
    destruct qs as [|q qs]; [by eexists |].
    change (Nat.ltb 0 (length (q :: qs))) with true. cbv iota.
    apply round_percent_defined. cbn [length]. lia.
  - intros rs. unfold percentage.
    destruct (Z.ltb_spec 0 (maxScore rs)); [| by eexists].
    apply round_percent_defined. lia.
Qed.

(** * The ledger *)

Lemma step_ledger (w : World) (e : Event) :
  pending (runtime w) = [] ->
  pending (runtime (step w e)) = [] /\
  ledger_frame (committed w) (committed (step w e)).
Proof.
  intros Hq.
  assert (Hcase : e = FaceOutOfFrame \/ e <> FaceOutOfFrame)
    by (destruct e; (by left) || (by right)).
  destruct Hcase as [->|He].
  - rewrite step_face by done. cbv zeta.
    destruct (_ || _); [| destruct (Nat.eqb _ _)].
    + split; [done |]. unfold ledger_frame. repeat split; intros; first [done | lia].
    + destruct w as [h rt]. cbn in *. split; [by destruct rt; cbn in * |].
      destruct h. unfold ledger_frame. cbn. repeat split; intros; first [done | lia].
    + destruct w as [h rt]. cbn in *. split; [by destruct rt; cbn in * |].
      unfold ledger_frame. repeat split; intros; first [done | lia].
  - destruct (step_event w e Hq He) as (? & _ & _ & _ & ? & _). done.
Qed.


(** ** Any number of events between two renders *)


















Section QuizLedger.
Import Gateway Mcq.

Lemma click_index (c : Click) (h : Hooks) :
  currentQuestionIndex h <= currentQuestionIndex (click c h).
Proof.
  destruct (click_cases c h) as [-> | [(k & -> & _ & o & ->) | (-> & _ & _ & ->)]].
  - done.
  - done.
  - destruct (handleNextQuestion_cases h) as [-> | ->]; cbn; lia.
Qed.

Lemma clicks_ledger (cs : list Click) (h : Hooks) :
  length (userAnswers h) = length (questions h) ->
  length (userAnswers (clicks cs h)) = length (questions (clicks cs h)) /\
  currentQuestionIndex h <= currentQuestionIndex (clicks cs h) /\
  forall j, j < currentQuestionIndex h ->
            Js.array_get (userAnswers (clicks cs h)) j = Js.array_get (userAnswers h) j.
Proof.
  revert h. induction cs as [|c cs IH]; intros h Hlen; [done |].
  change (clicks (c :: cs) h) with (clicks cs (click c h)).
  destruct (click_ledger c h Hlen) as (Hlen' & _ & Hother).
  destruct (IH (click c h) Hlen') as (? & ? & Hpast).
  pose proof (click_index c h).
  split; [done |]. split; [lia |].
  intros j Hj. rewrite Hpast by lia. apply Hother. lia.
Qed.

Lemma started_ledger (subject : TechnicalSubject) (fetched : list MCQ) :
  length (userAnswers (started subject fetched)) = length (questions (started subject fetched)).
Proof. cbn. apply length_array_fill. Qed.


End QuizLedger.






(** * Further properties of the interview controller *)

(** Symbolic execution of the renders on the whole component. *)
Ltac one_world_render :=
  first
  [ rewrite settle_quiescent by reflexivity
  | erewrite settle_step by reflexivity;
    unfold render, deps_setup, deps_timer, deps_advance; cbn;
    repeat (split_cond; cbn);
    unfold cleanup_handlers, cleanup_timer, effect_setup, effect_handlers,
           effect_timer, handleAdvanceAfterRecording; cbn;
    repeat (split_cond; cbn) ].

(** X1. An event delivered to a component whose update queue is empty is
    followed by renders until no update is queued, and the eight renders
    [step] allows are enough: the queue is empty afterwards, so a further
    render would change nothing. *)
Theorem step_settles (w : World) (e : Event) :
  pending (runtime w) = [] ->
  pending (runtime (step w e)) = [] /\
  forall n, settle n (step w e) = step w e.
Proof.
  intros Hq. destruct (step_ledger w e Hq) as (Hq' & _).
  split; [done |]. intros n. by apply settle_quiescent.
Qed.

Lemma step_settles_witness :
  pending (runtime (step demo_recording Tick)) = [].
Proof. exact (proj1 (step_settles demo_recording Tick eq_refl)). Defined.

(** X2. The advance lock holds across a render: after the render that
    follows a call of the advance routine, the lock is set and a further
    call of the routine does nothing at all. *)
Theorem advance_lock_holds_across_render (w : World) :
  pending (runtime w) = [] ->
  isAdvancing (committed w) = false ->
  isTerminated (runtime w) = false ->
  let w1 := render (call handleAdvanceAfterRecording w) in
  isAdvancing (committed w1) = true /\
  call handleAdvanceAfterRecording w1 = w1.
Proof. apply advance_after_render_is_noop. Qed.

Lemma advance_lock_holds_across_render_witness :
  let w1 := render (call handleAdvanceAfterRecording demo_recording) in
  call handleAdvanceAfterRecording w1 = w1.
Proof.
  exact (proj2 (advance_lock_holds_across_render demo_recording eq_refl eq_refl eq_refl)).
Defined.

(** X3. Within one render the lock does not hold: two calls of the advance
    routine of the same render, with the lock free and the session not
    terminated, queue the ledger write and the transition twice. *)
Theorem advance_lock_fails_within_render (h : Hooks) (rt : Runtime) :
  isAdvancing h = false ->
  isTerminated rt = false ->
  let once := advance_updates h false (latestTranscript rt) in
  pending (handleAdvanceAfterRecording h rt) = pending rt ++ once /\
  pending (handleAdvanceAfterRecording h (handleAdvanceAfterRecording h rt)) =
    pending rt ++ once ++ once /\
  length once = 3.
Proof.
  intros Hadv Hterm. cbv zeta.
  split; [by rewrite advance_pending, Hterm |].
  split; [by apply advance_twice_same_render |].
  unfold advance_updates. by rewrite Hadv.
Qed.

Lemma advance_lock_fails_within_render_witness :
  length (pending (handleAdvanceAfterRecording (committed demo_recording)
             (handleAdvanceAfterRecording (committed demo_recording)
                (runtime demo_recording)))) = 6.
Proof.
  destruct (advance_lock_fails_within_render (committed demo_recording)
              (runtime demo_recording) eq_refl eq_refl) as (_ & Htwice & _).
  rewrite Htwice. reflexivity.
Defined.

(** X4. A tick with more than one second left only counts down: the timer
    loses one second, a new timeout is pending, and nothing else in the
    component changes. *)
Theorem tick_counts_down (w : World) :
  pending (runtime w) = [] ->
  interviewState (committed w) = inProgress ->
  isTerminated (runtime w) = false ->
  countdownArmed (runtime w) = true ->
  (1 < timer (committed w))%Z ->
  step w Tick = mkWorld (apply (committed w) setTimer_pred) (runtime w).
Proof.
  destruct w as [[rf qs i st er ph tm tx aa rs adv re fw] [lt term hr li ha ca ws wt te pe]].
  cbn. intros -> -> -> -> Htm.
  unfold step, deliver. cbn.
  repeat one_world_render; reflexivity.
Qed.

Lemma tick_counts_down_witness :
  timer (committed (step demo_start Tick)) = 9%Z.
Proof.
  rewrite (tick_counts_down demo_start eq_refl eq_refl eq_refl eq_refl eq_refl).
  reflexivity.
Defined.

(** X5. The end of the thinking window: the tick that brings the timer to 0
    while thinking starts the recording window with 30 seconds, starts the
    recogniser when there is one, leaves the transcript buffer, the index
    and the ledger alone, and leaves a timeout pending. *)
Theorem thinking_window_elapses (w : World) :
  pending (runtime w) = [] ->
  interviewState (committed w) = inProgress ->
  interviewPhase (committed w) = thinking ->
  isTerminated (runtime w) = false ->
  countdownArmed (runtime w) = true ->
  timer (committed w) = 1%Z ->
  let w' := step w Tick in
  interviewPhase (committed w') = recording /\
  timer (committed w') = 30%Z /\
  interviewState (committed w') = inProgress /\
  currentQuestionIndex (committed w') = currentQuestionIndex (committed w) /\
  allAnswers (committed w') = allAnswers (committed w) /\
  latestTranscript (runtime w') = latestTranscript (runtime w) /\
  listening (runtime w') = (if hasRecognition (runtime w) then true else listening (runtime w)) /\
  countdownArmed (runtime w') = true /\
  pending (runtime w') = [].
Proof.
  destruct w as [[rf qs i st er ph tm tx aa rs adv re fw] [lt term hr li ha ca ws wt te pe]].
  cbn. intros -> -> -> -> -> ->.
  unfold step, deliver. cbn.
  repeat one_world_render; cbn; repeat split.
Qed.

Lemma thinking_window_elapses_witness :
  let w := run (repeat Tick 9) demo_start in
  view (step w Tick) = (inProgress, recording, 0) /\
  listening (runtime (step w Tick)) = true.
Proof.
  intros w.
  pose proof (thinking_window_elapses w eq_refl eq_refl eq_refl eq_refl eq_refl eq_refl) as H.
  cbv zeta in H. destruct H as (Hph & _ & Hst & Hi & _ & _ & Hli & _).
  unfold view. rewrite Hph, Hst, Hi, Hli. split; reflexivity.
Defined.

(** X6. The end of the recording window: the tick that brings the timer to
    0 while recording, with the lock free, stops the recogniser and commits
    the trimmed transcript buffer to the slot of the current question; from
    any question but the last the next one starts thinking with 10 seconds,
    an empty buffer and the lock released; from the last one the session
    moves to [evaluating] and no timeout is left pending. *)
Theorem recording_window_elapses (w : World) :
  pending (runtime w) = [] ->
  interviewState (committed w) = inProgress ->
  interviewPhase (committed w) = recording ->
  isAdvancing (committed w) = false ->
  isTerminated (runtime w) = false ->
  countdownArmed (runtime w) = true ->
  timer (committed w) = 1%Z ->
  let h := committed w in
  let i := currentQuestionIndex h in
  let w' := step w Tick in
  let h' := committed w' in
  allAnswers h' = Js.array_set (allAnswers h) i (Js.trim (latestTranscript (runtime w))) /\
  pending (runtime w') = [] /\
  (hasRecognition (runtime w) = true -> listening (runtime w') = false) /\
  if (Z.of_nat i <? Z.of_nat (length (questions h)) - 1)%Z
  then interviewState h' = inProgress /\ currentQuestionIndex h' = i + 1 /\
       interviewPhase h' = thinking /\ timer h' = 10%Z /\
       isAdvancing h' = false /\ transcribedText h' = "" /\
       latestTranscript (runtime w') = "" /\ countdownArmed (runtime w') = true
  else interviewState h' = evaluating /\ currentQuestionIndex h' = i /\
       countdownArmed (runtime w') = false.
Proof.
  destruct w as [[rf qs i st er ph tm tx aa rs adv re fw] [lt term hr li ha ca ws wt te pe]].
  cbn. intros -> -> -> -> -> -> ->.
  unfold step, deliver. cbn.
  destruct hr, ha; repeat one_world_render; cbn; repeat split; try done;
    try (destruct (Z.ltb_spec (Z.of_nat i) (Z.of_nat (length qs) - 1)); [| lia]);
    try (destruct (Z.ltb_spec (Z.of_nat i) (Z.of_nat (length qs) - 1)); [lia |]);
    repeat split.
Qed.

Lemma recording_window_elapses_witness :
  allAnswers (committed (step demo_recording Tick)) = [Some "hello"; Some ""; Some ""] /\
  view (step demo_recording Tick) = (inProgress, thinking, 1).
Proof.
  pose proof (recording_window_elapses demo_recording
                eq_refl eq_refl eq_refl eq_refl eq_refl eq_refl eq_refl) as H.
  cbv zeta in H. destruct H as (Hans & _ & _ & Hnext).
  split; [rewrite Hans; reflexivity |].
  change (Z.of_nat (currentQuestionIndex (committed demo_recording)) <?
          Z.of_nat (length (questions (committed demo_recording))) - 1)%Z with true in Hnext.
  cbv iota in Hnext. destruct Hnext as (Hst & Hi & Hph & _).
  unfold view. rewrite Hst, Hi, Hph. reflexivity.
Defined.

(** * Choosing and reading the document *)

Lemma settle_core_file_chosen (h : Hooks) (term : bool) (lt : string) (file : File) :
  settle_core 8 (mkCore h term lt [setResumeFile (Some file); setError None]) =
  mkCore (apply (apply h (setResumeFile (Some file))) (setError None)) term lt [].
Proof.
  destruct h as [rf qs i st er ph tm tx aa rs adv re fw].
  repeat one_render; reflexivity.
Qed.

Lemma settle_core_error_set (h : Hooks) (term : bool) (lt : string) (message : string) :
  settle_core 8 (mkCore h term lt [setError (Some message)]) =
  mkCore (apply h (setError (Some message))) term lt [].
Proof.
  destruct h as [rf qs i st er ph tm tx aa rs adv re fw].
  repeat one_render; reflexivity.
Qed.

(** X7. Choosing a file: a file whose type is not one of the three allowed
    types is not taken, the document chosen before stays, and the start
    button is disabled by the error message; a file of an allowed type
    becomes the document, clears the error and enables the start button;
    an empty selection changes nothing. *)
Theorem choosing_a_file (w : World) (files : list File) :
  pending (runtime w) = [] ->
  let h := committed w in
  let h' := committed (chooseFile files w) in
  match files with
  | [] => h' = h
  | file :: _ =>
    if bool_decide (type file ∈ allowedTypes)
    then h' = apply (apply h (setResumeFile (Some file))) (setError None) /\
         resumeFile h' = Some file /\ start_disabled h' = false
    else h' = apply h (setError (Some unsupported_message)) /\
         resumeFile h' = resumeFile h /\ start_disabled h' = true
  end.
Proof.
  intros Hq. cbv zeta. unfold chooseFile.
  destruct files as [|file files].
  { unfold call, handleFileChange. rewrite settle_quiescent by done. done. }
  pose proof (core_settle 8 (call (fun _ => handleFileChange (file :: files)) w)) as Hs.
  unfold call, handleFileChange in *. cbn [committed runtime] in *.
  destruct (bool_decide (type file ∈ allowedTypes)); cbn [negb] in *.
  - rewrite !dispatch_core in Hs.
    assert (Hrt : pending (dispatch (setResumeFile (Some file)) (runtime w))
                  = [setResumeFile (Some file)] /\
                  isTerminated (dispatch (setResumeFile (Some file)) (runtime w))
                  = isTerminated (runtime w) /\
                  latestTranscript (dispatch (setResumeFile (Some file)) (runtime w))
                  = latestTranscript (runtime w))
      by (destruct (runtime w); cbn in *; by subst).
    destruct Hrt as (Hp & Ht & Hl). rewrite Hp, Ht, Hl in Hs. cbn [app] in Hs.
    rewrite settle_core_file_chosen in Hs.
    destruct (core_fields _ _ Hs) as (-> & _). cbn [core_hooks].
    destruct (committed w); cbn. done.
  - rewrite dispatch_core, Hq in Hs. cbn [app] in Hs.
    rewrite settle_core_error_set in Hs.
    destruct (core_fields _ _ Hs) as (-> & _). cbn [core_hooks].
    destruct (committed w) as [[f|] ? ? ? ? ? ? ? ? ? ? ? ?]; cbn; done.
Qed.

Lemma choosing_a_file_witness :
  let w := chooseFile [mkFile "cv.pdf" "application/pdf"] (initial true) in
  let w' := chooseFile [mkFile "cv.png" "image/png"] w in
  start_disabled (committed w) = false /\
  start_disabled (committed w') = true /\
  resumeFile (committed w') = Some (mkFile "cv.pdf" "application/pdf").
Proof.
  intros w w'.
  pose proof (choosing_a_file (initial true) [mkFile "cv.pdf" "application/pdf"] eq_refl) as H1.
  pose proof (choosing_a_file w [mkFile "cv.png" "image/png"] eq_refl) as H2.
  cbv zeta in H1, H2.
  change (bool_decide (type (mkFile "cv.pdf" "application/pdf") ∈ allowedTypes))
    with true in H1.
  change (bool_decide (type (mkFile "cv.png" "image/png") ∈ allowedTypes))
    with false in H2.
  cbv iota in H1, H2.
  destruct H1 as (_ & _ & Hen). destruct H2 as (_ & Hkeep & Hdis).
  split; [exact Hen |]. split; [exact Hdis |].
  fold w' in Hkeep. rewrite Hkeep. reflexivity.
Defined.

Lemma settle_core_start_catch (h : Hooks) (term : bool) (lt : string) :
  settle_core 8 (mkCore h term lt [setError (Some "An unexpected error occurred.");
                                    setInterviewState upload]) =
  mkCore (apply (apply h (setError (Some "An unexpected error occurred.")))
                (setInterviewState upload)) term lt [].
Proof. apply settle_core_start_failure. Qed.

(** X8. The other ways a start request fails: without a document the
    request does nothing; when the document cannot be read, or the
    generation promise is rejected, the session is back in [upload] with the
    fixed message "An unexpected error occurred." and its questions, ledger
    and index are untouched. *)
Theorem start_request_rejected (w : World) (fileData : Gateway.Settled unit)
    (generated : Gateway.Settled (list string)) :
  pending (runtime w) = [] ->
  let w' := startInterview fileData generated w in
  (resumeFile (committed w) = None -> w' = w) /\
  (resumeFile (committed w) <> None ->
   (exists reason, fileData = Gateway.Rejected reason) \/
   (exists reason, generated = Gateway.Rejected reason) ->
   interviewState (committed w') = upload /\
   error (committed w') = Some "An unexpected error occurred." /\
   questions (committed w') = questions (committed w) /\
   allAnswers (committed w') = allAnswers (committed w) /\
   currentQuestionIndex (committed w') = currentQuestionIndex (committed w)).
Proof.
  intros Hq. cbv zeta. unfold startInterview.
  destruct (resumeFile (committed w)) as [f|] eqn:Hf; (split; [done |]); [| done].
  intros _ Hrej.
  pose proof (start_request_core w f Hq Hf) as Hreq.
  remember (settle 8 (call handleStartInterview_request w)) as w1 eqn:Hw1. clear Hw1.
  destruct w1 as [h1 rt1]. destruct (core_fields _ _ Hreq) as (Hh1 & Ht1 & Hl1 & Hp1).
  cbn [committed runtime core_hooks core_terminated core_transcript core_pending] in *.
  set (w2 := call _ (mkWorld h1 rt1)).
  pose proof (core_settle 8 w2) as Hs.
  assert (Hw2 : core w2 =
    mkCore h1 (isTerminated rt1) (latestTranscript rt1)
      [setError (Some "An unexpected error occurred."); setInterviewState upload]).
  { subst w2. unfold call, handleStartInterview_resume, start_catch, core.
    cbn [committed runtime].
    destruct Hrej as [[reason ->] | [reason ->]].
    - destruct rt1; cbn in *; by subst.
    - destruct fileData; destruct rt1; cbn in *; by subst. }
  rewrite Hw2, settle_core_start_catch in Hs.
  destruct (core_fields _ _ Hs) as (-> & _). subst h1. cbn [core_hooks].
  by destruct (committed w).
Qed.

Lemma start_request_rejected_witness :
  let w := chooseFile [mkFile "cv.pdf" "application/pdf"] (initial true) in
  interviewState (committed (startInterview (Gateway.Rejected "NotReadableError")
                               (Gateway.Resolved ["Q1"]) w)) = upload /\
  startInterview (Gateway.Resolved tt) (Gateway.Resolved ["Q1"]) (initial true)
    = initial true.
Proof.
  intros w.
  destruct (start_request_rejected w (Gateway.Rejected "NotReadableError")
              (Gateway.Resolved ["Q1"]) eq_refl) as (_ & Hrej).
  destruct (start_request_rejected (initial true) (Gateway.Resolved tt)
              (Gateway.Resolved ["Q1"]) eq_refl) as (Hnone & _).
  split; [| exact (Hnone eq_refl)].
  apply Hrej; [discriminate | left; by eexists].
Defined.

(** * The transcript buffer *)

Section Strings.

Local Arguments String.append : simpl nomatch.
Local Arguments Js.trim : simpl nomatch.

Lemma rev_app_append (s t acc : string) :
  String.rev_app (s ++ t)%string acc = String.rev_app t (String.rev_app s acc).
Proof. revert acc. induction s as [|c s IH]; intros acc; cbn; [done | apply IH]. Qed.

Lemma trimStart_blank (s t : string) :
  Js.trimStart s = "" -> Js.trimStart (s ++ t)%string = Js.trimStart t.
Proof.
  induction s as [|c s IH]; cbn; [done |].
  destruct (Js.is_space c); [exact IH | discriminate].
Qed.

Lemma trimStart_append (s t : string) :
  Js.trimStart s <> "" -> Js.trimStart (s ++ t)%string = (Js.trimStart s ++ t)%string.
Proof.
  induction s as [|c s IH]; cbn; [done |].
  destruct (Js.is_space c); done.
Qed.

Lemma trim_trailing_space (s : string) : Js.trim (s ++ " ")%string = Js.trim s.
Proof.
  unfold Js.trim.
  destruct (decide (Js.trimStart s = "")) as [Hblank|Hword].
  - rewrite trimStart_blank, Hblank by done. done.
  - rewrite trimStart_append by done.
    unfold String.rev at 2. rewrite rev_app_append. cbn. done.
Qed.

Lemma finalTranscript_interim_from (entries : list (string * bool)) (acc : string) :
  Forall (fun r => snd r = false) entries ->
  fold_left (fun (acc : string) (r : string * bool) =>
               if snd r then String.append acc (fst r) else acc) entries acc = acc.
Proof.
  intros Hall. revert acc. induction Hall as [|[t b] rest Hb _ IH]; intros acc; [done |].
  cbn in *. subst b. apply IH.
Qed.

Lemma append_empty_r (s : string) : (s ++ "")%string = s.
Proof. induction s as [|c s IH]; cbn; [done | by rewrite IH]. Qed.

(** X9. A result event of the recogniser in which no entry is final does
    not change what the advance routine will commit: the trimmed transcript
    buffer is the same before and after, and the text shown is the buffer. *)
Theorem interim_results_are_not_kept (entries : list (string * bool)) (rt : Runtime) :
  Forall (fun r => snd r = false) entries ->
  pending rt = [] ->
  let rt' := onresult entries rt in
  Js.trim (latestTranscript rt') = Js.trim (latestTranscript rt) /\
  pending rt' = [setTranscribedText (latestTranscript rt')].
Proof.
  intros Hall Hq. cbv zeta. unfold onresult, finalTranscript.
  rewrite finalTranscript_interim_from by done.
  destruct rt; cbn in *. subst. split; [| done].
  change ("" ++ " ")%string with " ". apply trim_trailing_space.
Qed.

Lemma interim_results_are_not_kept_witness :
  Js.trim (latestTranscript (onresult [("hel", false); ("hello wor", false)]
                               (runtime demo_recording))) = "hello".
Proof.
  destruct (interim_results_are_not_kept [("hel", false); ("hello wor", false)]
              (runtime demo_recording)) as (Htrim & _).
  - repeat constructor.
  - reflexivity.
  - rewrite Htrim. reflexivity.
Defined.

(** * Reading the document *)

Lemma split_on_absent (c : ascii) (s : string) :
  occurs c s = false -> split_on c s = [s].
Proof.
  induction s as [|a s IH]; cbn; [done |].
  destruct (Ascii.eqb a c); cbn; [discriminate |].
  intros Hs. by rewrite IH.
Qed.

Lemma split_on_first (c : ascii) (s t : string) :
  occurs c s = false ->
  split_on c (s ++ String c t)%string = s :: split_on c t.
Proof.
  induction s as [|a s IH]; cbn.
  - intros _. by rewrite Ascii.eqb_refl.
  - destruct (Ascii.eqb a c); cbn; [discriminate |].
    intros Hs. by rewrite IH.
Qed.

Lemma append_assoc_string (a b c : string) :
  ((a ++ b) ++ c = a ++ (b ++ c))%string.
Proof. induction a as [|x a IH]; cbn; [done | by rewrite IH]. Qed.

(** X10. Reading a document: the data URL of a file of type [mime] with a
    non-empty payload is taken apart into exactly that payload and that
    type, provided the type contains no comma, colon or semicolon and the
    payload no comma; with an empty payload the promise is rejected; and a
    read error rejects it with the reader's reason. *)
Theorem fileToDataUrl_reads_data_url (mime payload : string) :
  occurs "," mime = false -> occurs ":" mime = false -> occurs ";" mime = false ->
  occurs "," payload = false ->
  fileToDataUrl (ReadLoaded (data_url mime payload)) =
    (if String.eqb payload ""
     then Some (Gateway.Rejected "Could not read file as base64.")
     else Some (Gateway.Resolved (mkFileData payload mime))) /\
  forall reason, fileToDataUrl (ReadFailed reason) = Some (Gateway.Rejected reason).
Proof.
  intros Hcomma Hcolon Hsemi Hpay. split; [| done].
  unfold fileToDataUrl, data_url.
  assert (Hpieces : split_on "," ("data:" ++ mime ++ ";base64," ++ payload)%string =
                    [("data:" ++ mime ++ ";base64")%string; payload]).
  { change (";base64," ++ payload)%string with (";base64" ++ String "," payload)%string.
    rewrite <- !append_assoc_string.
    rewrite split_on_first, split_on_absent; [done | done |].
    clear -Hcomma. cbn. induction mime as [|a m IH]; cbn in *; [done |].
    destruct (Ascii.eqb a ","); [discriminate | by apply IH]. }
  rewrite Hpieces. cbn [lookup list_lookup].
  assert (Hmeta : split_on ":" ("data:" ++ mime ++ ";base64")%string =
                  ["data"; (mime ++ ";base64")%string]).
  { change ("data:" ++ mime ++ ";base64")%string
      with ("data" ++ String ":" (mime ++ ";base64"))%string.
    rewrite split_on_first by done. rewrite split_on_absent; [done |].
    clear -Hcolon. induction mime as [|a m IH]; cbn in *; [done |].
    destruct (Ascii.eqb a ":"); [discriminate | by apply IH]. }
  rewrite Hmeta. cbn [lookup list_lookup].
  assert (Hmime : split_on ";" (mime ++ ";base64")%string = [mime; "base64"]).
  { change (mime ++ ";base64")%string with (mime ++ String ";" "base64")%string.
    by rewrite split_on_first. }
  rewrite Hmime. cbn [lookup list_lookup Js.truthy default].
  by destruct (String.eqb payload "").
Qed.

Lemma fileToDataUrl_reads_data_url_witness :
  fileToDataUrl (ReadLoaded "data:application/pdf;base64,JVBERi0xLjQK") =
  Some (Gateway.Resolved (mkFileData "JVBERi0xLjQK" "application/pdf")).
Proof.
  exact (proj1 (fileToDataUrl_reads_data_url "application/pdf" "JVBERi0xLjQK"
                  eq_refl eq_refl eq_refl eq_refl)).
Defined.

End Strings.

(** * The gateway and its callers *)


(** X11. Question generation never rejects, and the controller recognises
    each failure of it: with a key configured, a failed call or parse gives
    a one-element list that the controller does not accept, and a reply
    that is not an array gives the empty list, which it does not accept
    either; an array reply is passed on as it is; without a key the ten
    sample questions are returned, which the controller accepts. *)
Theorem generated_questions_and_controller (env : Gateway.Env)
    (reply : Gateway.QuestionsReply) :
  exists generated,
    Gateway.generateQuestionsFromResume env reply = Gateway.Resolved generated /\
    (Gateway.isApiKeyConfigured env = false ->
     generated = Gateway.sampleResumeQuestions /\ usable generated = true /\
     length generated = 10) /\
    (Gateway.isApiKeyConfigured env = true ->
     match reply with
     | Gateway.QArray items => generated = items
     | Gateway.QOther => generated = [] /\ usable generated = false
     | Gateway.QError message => length generated = 1 /\ usable generated = false
     end).
Proof.
  unfold Gateway.generateQuestionsFromResume, Gateway.getAi.
  destruct (Gateway.isApiKeyConfigured env); cbn.
  - destruct reply as [items| |message]; cbn.
    + eexists. split; [done |]. split; [discriminate | done].
    + eexists. split; [done |]. split; [discriminate | done].
    + destruct (Js.includes message "400");
        (eexists; split; [done |]; split; [discriminate |]; intros _; split; [done |]);
        vm_compute; reflexivity.
  - eexists. split; [done |]. split; [| discriminate].
    intros _. split; [done |]. split; [vm_compute; reflexivity | done].
Qed.

(** X12. The failure marker is looked for in the questions themselves: when
    generation succeeds with a list whose first question contains the words
    "could not" in any letter case, the controller treats the list as a
    failure, returns to [upload] and shows that question as the error. *)
Theorem question_with_marker_is_rejected (w : World) (f : File)
    (first : string) (rest : list string) :
  pending (runtime w) = [] ->
  resumeFile (committed w) = Some f ->
  (0 < timer (committed w))%Z ->
  Js.includes (Js.toLowerCase first) "could not" = true ->
  let env := Gateway.mkEnv (Some "key") in
  let generated := Gateway.generateQuestionsFromResume env (Gateway.QArray (first :: rest)) in
  generated = Gateway.Resolved (first :: rest) /\
  let h' := committed (startInterview (Gateway.Resolved tt) generated w) in
  interviewState h' = upload /\ error h' = Some first /\
  questions h' = questions (committed w).
Proof.
  intros Hq Hf Htm Hmark. cbv zeta. split; [done |].
  change (Gateway.generateQuestionsFromResume (Gateway.mkEnv (Some "key"))
            (Gateway.QArray (first :: rest)))
    with (Gateway.Resolved (first :: rest)).
  unfold startInterview. rewrite Hf.
  pose proof (start_request_core w f Hq Hf) as Hreq.
  remember (settle 8 (call handleStartInterview_request w)) as w1 eqn:Hw1. clear Hw1.
  destruct w1 as [h1 rt1]. destruct (core_fields _ _ Hreq) as (Hh1 & Ht1 & Hl1 & Hp1).
  cbn [committed runtime core_hooks core_terminated core_transcript core_pending] in *.
  set (w2 := call _ (mkWorld h1 rt1)).
  pose proof (core_settle 8 w2) as Hs.
  assert (Hfirst : first <> "").
  { intros ->. vm_compute in Hmark. discriminate. }
  assert (Hw2 : core w2 =
    mkCore h1 (isTerminated rt1) (latestTranscript rt1)
      [setError (Some first); setInterviewState upload]).
  { subst w2. unfold call, handleStartInterview_resume, core.
    cbn [committed runtime].
    change (Nat.ltb 0 (length (first :: rest))) with true. cbn [andb head].
    rewrite Hmark. cbn [negb Js.or_default].
    destruct (String.eqb_spec first ""); [done |].
    destruct rt1; cbn in *; by subst. }
  rewrite Hw2, settle_core_start_failure in Hs.
  destruct (core_fields _ _ Hs) as (-> & _). subst h1. cbn [core_hooks].
  by destruct (committed w).
Qed.

Lemma question_with_marker_is_rejected_witness :
  let w := chooseFile [mkFile "cv.pdf" "application/pdf"] (initial true) in
  interviewState (committed (startInterview (Gateway.Resolved tt)
     (Gateway.Resolved ["Tell me about a bug you COULD NOT reproduce."; "Q2"]) w)) = upload.
Proof.
  intros w.
  destruct (question_with_marker_is_rejected w (mkFile "cv.pdf" "application/pdf")
              "Tell me about a bug you COULD NOT reproduce." ["Q2"]
              eq_refl eq_refl eq_refl eq_refl) as (_ & Hst & _).
  exact Hst.
Defined.

(** X13. Scoring in demo mode (no key): whatever the random draw and
    whatever the question and answer, the call resolves with a score of 3,
    4 or 5; with a key, a usable reply is passed on unchanged and every
    other outcome resolves with the fallback, so the call never rejects. *)
Theorem evaluateAnswer_outcomes (env : Gateway.Env) (random : nat)
    (reply : Gateway.EvaluationReply) (q a : string) :
  exists e,
    Gateway.evaluateAnswer env random reply q a = Gateway.Resolved e /\
    (Gateway.isApiKeyConfigured env = false ->
     (3 <= Gateway.score e <= 5)%Z) /\
    (Gateway.isApiKeyConfigured env = true ->
     match reply with
     | Gateway.EObject (Some fb) (Some sc) => e = Gateway.mkEvaluation fb sc
     | _ => e = Gateway.evaluation_fallback
     end).
Proof.
  unfold Gateway.evaluateAnswer, Gateway.getAi.
  destruct (Gateway.isApiKeyConfigured env); cbn.
  - destruct reply as [[fb|] [sc|]|message]; cbn;
      (eexists; split; [done |]; split; [discriminate | done]).
  - eexists. split; [done |]. split; [| discriminate].
    intros _. cbn [Gateway.score].
    pose proof (Nat.mod_upper_bound random 3). lia.
Qed.

(** * Further properties of the quiz *)

Section QuizMore.
Import Gateway Mcq.

(** X14. A quiz whose current question has no option that is a non-empty
    string is a dead end: the next button stays disabled and whatever the
    user clicks, the page does not change its index or its phase.  The
    sentinel list that [generateMcqTest] returns on failure, whose only
    question has no options, is such a quiz. *)
Theorem quiz_without_options_is_stuck (subject : TechnicalSubject)
    (q : MCQ) (rest : list MCQ) (cs : list Click) :
  Forall (fun o => o = "") (options q) ->
  let h := clicks cs (started subject (q :: rest)) in
  mcqState h = inProgress /\ currentQuestionIndex h = 0 /\
  next_disabled h = true /\ questions h = q :: rest.
Proof.
  intros Hopts. cbv zeta.
  assert (Hinv : forall h, mcqState h = inProgress -> currentQuestionIndex h = 0 ->
            next_disabled h = true -> questions h = q :: rest ->
            forall c, let h' := click c h in
              mcqState h' = inProgress /\ currentQuestionIndex h' = 0 /\
              next_disabled h' = true /\ questions h' = q :: rest).
  { intros h Hst Hi Hdis Hqs c. cbv zeta. unfold click.
    rewrite Hst, Hi, Hqs. cbn [lookup list_lookup].
    destruct c as [k|].
    - destruct (options q !! k) as [o|] eqn:Ho; [| done].
      assert (o = "") as ->.
      { eapply Forall_lookup_1 in Hopts; [exact Hopts | exact Ho]. }
      unfold handleSelectAnswer, next_disabled. cbn. rewrite Hi.
      rewrite array_get_set_eq. done.
    - by rewrite Hdis. }
  revert cs.
  assert (Hrun : forall cs h, mcqState h = inProgress -> currentQuestionIndex h = 0 ->
            next_disabled h = true -> questions h = q :: rest ->
            mcqState (clicks cs h) = inProgress /\ currentQuestionIndex (clicks cs h) = 0 /\
            next_disabled (clicks cs h) = true /\ questions (clicks cs h) = q :: rest).
  { induction cs as [|c cs IH]; intros h Hst Hi Hdis Hqs; [done |].
    change (clicks (c :: cs) h) with (clicks cs (click c h)).
    destruct (Hinv h Hst Hi Hdis Hqs c) as (? & ? & ? & ?). by apply IH. }
  intros cs. by apply Hrun.
Qed.

Lemma quiz_without_options_is_stuck_witness :
  let h := clicks [ClickOption 0; ClickNext; ClickNext] (started OS [mcq_sentinel OS]) in
  mcqState h = inProgress /\ next_disabled h = true.
Proof.
  intros h.
  destruct (quiz_without_options_is_stuck OS (mcq_sentinel OS) []
              [ClickOption 0; ClickNext; ClickNext]) as (Hst & _ & Hdis & _).
  - constructor.
  - split; [exact Hst | exact Hdis].
Defined.

Lemma click_inside (c : Click) (h : Hooks) :
  currentQuestionIndex h < length (questions h) ->
  currentQuestionIndex (click c h) < length (questions (click c h)).
Proof.
  intros Hi.
  destruct (click_cases c h) as [-> | [(k & -> & _ & o & ->) | (-> & _ & _ & ->)]];
    [done | done |].
  unfold handleNextQuestion.
  destruct (Z.ltb_spec (Z.of_nat (currentQuestionIndex h))
                       (Z.of_nat (length (questions h)) - 1)); cbn; lia.
Qed.

Lemma clicks_inside (cs : list Click) (h : Hooks) :
  currentQuestionIndex h < length (questions h) ->
  currentQuestionIndex (clicks cs h) < length (questions (clicks cs h)).
Proof.
  revert h. induction cs as [|c cs IH]; intros h Hi; [done |].
  change (clicks (c :: cs) h) with (clicks cs (click c h)). by apply IH, click_inside.
Qed.

(** X15. An empty array passes the format check of [generateMcqTest]: with
    a key configured it resolves with no questions, and the controller
    enters [inProgress] with an empty quiz and an empty ledger.  That page
    cannot be shown: the [inProgress] view reads the current question,
    there is none, and the render throws.  A quiz with at least one
    question never gets there: whatever the user clicks, the index stays
    inside the question list and the view has a question to show. *)
Theorem empty_quiz_cannot_be_shown (env : Env) (subject : TechnicalSubject) (h : Hooks) :
  isApiKeyConfigured env = true ->
  generateMcqTest env (MArray []) subject = Resolved [] /\
  (let h' := handleSelectSubject env (MArray []) subject h in
   mcqState h' = inProgress /\ questions h' = [] /\ userAnswers h' = [] /\
   renderInProgress h' =
     Throws "TypeError: Cannot read properties of undefined (reading 'question')") /\
  (forall (fetched : list MCQ) (cs : list Click),
     fetched <> [] ->
     let page := clicks cs (started subject fetched) in
     exists q, questions page !! currentQuestionIndex page = Some q /\
       renderInProgress page =
         Returns (mkQuestionView (question q) (options q) (next_disabled page))).
Proof.
  intros Hkey.
  assert (Hgen : generateMcqTest env (MArray []) subject = Resolved []).
  { unfold generateMcqTest, getAi. by rewrite Hkey. }
  split; [done |]. split.
  - cbv zeta. unfold handleSelectSubject. rewrite Hgen. cbn.
    repeat split.
  - intros fetched cs Hne page.
    assert (Hi : currentQuestionIndex page < length (questions page)).
    { apply clicks_inside. cbn. destruct fetched; [done | cbn; lia]. }
    destruct (lookup_lt_is_Some_2 _ _ Hi) as (q & Hq).
    exists q. split; [done |]. unfold renderInProgress. by rewrite Hq.
Qed.

Lemma empty_quiz_cannot_be_shown_witness :
  renderInProgress (handleSelectSubject (mkEnv (Some "key")) (MArray []) DSA initial) =
    Throws "TypeError: Cannot read properties of undefined (reading 'question')" /\
  exists q, renderInProgress (clicks [ClickOption 1; ClickNext] (started DSA sampleMcqs)) =
              Returns (mkQuestionView (question q) (options q) true).
Proof.
  destruct (empty_quiz_cannot_be_shown (mkEnv (Some "key")) DSA initial eq_refl)
    as (_ & (_ & _ & _ & Hthrows) & Hshown).
  split; [exact Hthrows |].
  destruct (Hshown sampleMcqs [ClickOption 1; ClickNext] ltac:(discriminate))
    as (q & _ & Hq).
  exists q. exact Hq.
Defined.

Lemma count_correct_bound (k : nat) (qs : list MCQ) (answers : Js.array) :
  count_correct k qs answers <= length qs.
Proof.
  revert k. induction qs as [|q qs IH]; intros k; cbn; [done |].
  specialize (IH (S k)). case_decide; lia.
Qed.

Lemma round_percent_range (num den : Z) :
  (0 <= num <= den)%Z -> (0 < den)%Z ->
  exists p, Js.round_percent num den = Js.Fin p /\ (0 <= p <= 100)%Z.
Proof.
  intros Hnum Hden. unfold Js.round_percent.
  destruct (Z.eqb_spec den 0); [lia |].
  eexists. split; [done |]. split.
  - apply Z.div_pos; lia.
  - apply Z.lt_succ_r. apply Z.div_lt_upper_bound; lia.
Qed.

(** X16. Pressing next on the last question sets a score that does not
    exceed the number of questions, and the percentage the results view
    shows for it lies between 0 and 100. *)
Theorem quiz_score_is_bounded (h : Hooks) :
  length (questions h) <= S (currentQuestionIndex h) ->
  let h' := handleNextQuestion h in
  mcqState h' = summarizing /\
  score h' <= length (questions h') /\
  exists p, percentage (score h') (questions h') = Js.Fin p /\ (0 <= p <= 100)%Z.
Proof.
  intros Hlast. cbv zeta. unfold handleNextQuestion.
  destruct (Z.ltb_spec (Z.of_nat (currentQuestionIndex h))
                       (Z.of_nat (length (questions h)) - 1)) as [Hlt|_]; [lia |].
  cbn [mcqState score questions].
  pose proof (count_correct_bound 0 (questions h) (userAnswers h)) as Hb.
  split; [done |]. split; [done |].
  unfold percentage. destruct (questions h) as [|q qs] eqn:Hqs.
  - exists 0%Z. split; [done | lia].
  - change (Nat.ltb 0 (length (q :: qs))) with true. cbv iota.
    apply round_percent_range; cbn [length] in *; lia.
Qed.

Lemma quiz_score_is_bounded_witness :
  score (handleNextQuestion demo_all_correct) <= 10.
Proof.
  destruct (quiz_score_is_bounded demo_all_correct) as (_ & Hb & _).
  - vm_compute. lia.
  - exact Hb.
Defined.

(** X17. When a quiz played on the page reaches [summarizing], it was on
    its last question and every question has a non-empty stored answer. *)
Theorem quiz_is_complete_at_submission (subject : TechnicalSubject)
    (fetched : list MCQ) (cs : list Click) :
  let h := clicks cs (started subject fetched) in
  mcqState h = summarizing ->
  S (currentQuestionIndex h) = length (questions h) /\
  length (userAnswers h) = length (questions h) /\
  forall j, j < length (questions h) ->
            Js.truthy (Js.array_get (userAnswers h) j) = true.
Proof.
  cbv zeta.
  assert (Hclick : forall h c,
            (mcqState h = inProgress \/
             (mcqState h = summarizing /\ S (currentQuestionIndex h) = length (questions h))) ->
            (mcqState (click c h) = inProgress \/
             (mcqState (click c h) = summarizing /\
              S (currentQuestionIndex (click c h)) = length (questions (click c h))))).
  { intros h c Hh. unfold click.
    destruct (mcqState h) eqn:Hst; try (rewrite Hst; exact Hh).
    destruct (questions h !! currentQuestionIndex h) as [q|] eqn:Hq; [| left; congruence].
    apply lookup_lt_Some in Hq.
    destruct c as [k|].
    - destruct (options q !! k); cbn; left; congruence.
    - destruct (next_disabled h); [left; congruence |].
      unfold handleNextQuestion.
      destruct (Z.ltb_spec (Z.of_nat (currentQuestionIndex h))
                           (Z.of_nat (length (questions h)) - 1)) as [Hlt|Hge]; cbn.
      + by left.
      + right. split; [done | lia]. }
  assert (Hrun : forall cs h,
            (mcqState h = inProgress \/
             (mcqState h = summarizing /\ S (currentQuestionIndex h) = length (questions h))) ->
            (mcqState (clicks cs h) = inProgress \/
             (mcqState (clicks cs h) = summarizing /\
              S (currentQuestionIndex (clicks cs h)) = length (questions (clicks cs h))))).
  { induction cs0 as [|c cs0 IH]; intros h Hh; [done |].
    change (clicks (c :: cs0) h) with (clicks cs0 (click c h)). by apply IH, Hclick. }
  intros Hsum.
  destruct (Hrun cs (started subject fetched) (or_introl eq_refl)) as [Hip | [_ Hlast]];
    [congruence |].
  destruct (clicks_ledger cs _ (started_ledger subject fetched)) as (Hlen & _ & _).
  destruct (answered_clicks cs _ (answered_started subject fetched)) as (Hbefore & Hat).
  split; [done |]. split; [done |].
  intros j Hj.
  destruct (decide (j = currentQuestionIndex (clicks cs (started subject fetched))))
    as [->|Hne]; [by apply Hat |].
  apply Hbefore. lia.
Qed.

Lemma quiz_is_complete_at_submission_witness :
  let h := clicks [ClickOption 0; ClickNext] (started OS [mkMCQ "Q" ["a"; "b"] "a"]) in
  S (currentQuestionIndex h) = length (questions h) /\
  Js.truthy (Js.array_get (userAnswers h) 0) = true.
Proof.
  intros h.
  destruct (quiz_is_complete_at_submission OS [mkMCQ "Q" ["a"; "b"] "a"]
              [ClickOption 0; ClickNext] eq_refl) as (Hlast & _ & Hall).
  split; [exact Hlast |].
  apply Hall. vm_compute. lia.
Defined.

End QuizMore.

(** * The results view of the interview *)

Lemma totalScore_from (rs : list InterviewResult) (acc : Z) :
  fold_left (fun sum result => (sum + score result)%Z) rs acc = (acc + totalScore rs)%Z.
Proof.
  unfold totalScore. revert acc. induction rs as [|r rs IH]; intros acc; cbn.
  - lia.
  - rewrite IH, (IH (0 + score r)%Z). lia.
Qed.

Lemma totalScore_cons (r : InterviewResult) (rs : list InterviewResult) :
  totalScore (r :: rs) = (score r + totalScore rs)%Z.
Proof. unfold totalScore at 1. cbn. rewrite totalScore_from. lia. Qed.

Lemma totalScore_range (rs : list InterviewResult) :
  Forall (fun r => (0 <= score r <= 5)%Z) rs ->
  (0 <= totalScore rs <= maxScore rs)%Z.
Proof.
  unfold maxScore. induction 1 as [|r rs Hr _ IH]; [done |].
  rewrite totalScore_cons. cbn [length]. lia.
Qed.

(** X18. When every result carries a score from 0 to 5, the total shown by
    the results view lies between 0 and five times the number of results,
    and the percentage between 0 and 100; it is 100 when every score is 5. *)
Theorem interview_percentage_is_bounded (rs : list InterviewResult) :
  Forall (fun r => (0 <= score r <= 5)%Z) rs ->
  (0 <= totalScore rs <= maxScore rs)%Z /\
  (exists p, percentage rs = Js.Fin p /\ (0 <= p <= 100)%Z) /\
  (rs <> [] -> Forall (fun r => score r = 5%Z) rs -> percentage rs = Js.Fin 100).
Proof.
  intros Hall. pose proof (totalScore_range rs Hall) as Hrange.
  split; [done |]. unfold percentage. split.
  - destruct (Z.ltb_spec 0 (maxScore rs)).
    + apply round_percent_range; lia.
    + exists 0%Z. split; [done | lia].
  - intros Hne Hfive.
    assert (Htotal : totalScore rs = maxScore rs).
    { clear -Hfive. unfold maxScore. induction Hfive as [|r rs Hr _ IH]; [done |].
      rewrite totalScore_cons, Hr, IH. cbn [length]. lia. }
    assert (Hpos : (0 < maxScore rs)%Z).
    { unfold maxScore. destruct rs; [done |]. cbn [length]. lia. }
    destruct (Z.ltb_spec 0 (maxScore rs)); [| lia].
    rewrite Htotal. by apply round_percent_full.
Qed.

Lemma interview_percentage_is_bounded_witness :
  percentage [mkResult "Q1" "a" "ok" 5; mkResult "Q2" "b" "ok" 5] = Js.Fin 100.
Proof.
  destruct (interview_percentage_is_bounded
              [mkResult "Q1" "a" "ok" 5; mkResult "Q2" "b" "ok" 5]) as (_ & _ & Hfull).
  - repeat constructor; cbn; lia.
  - apply Hfull; [discriminate | repeat constructor].
Defined.

(** * The application shell *)

Section Shell.
Import App.

(** X19. The stored view survives a refresh only for the sign-in page: in
    every state reached from a mounted shell, the view a refresh would
    start from is [auth] only if the current view is [auth], and it is
    [landing] otherwise; right after [handleSetView v] it is [auth] exactly
    when [v] is. *)
Theorem stored_view_round_trip (session local : option string) (prefersDark : bool)
    (actions : list Action) (v : AppView) :
  let s := shell_run actions (mount session local prefersDark) in
  (getInitialView (session_appView s) = auth -> view s = auth) /\
  (getInitialView (session_appView s) = auth \/
   getInitialView (session_appView s) = landing) /\
  getInitialView (session_appView (handleSetView v s)) =
    match v with auth => auth | _ => landing end.
Proof.
  cbv zeta.
  assert (Hinit : forall o, getInitialView o = auth \/ getInitialView o = landing).
  { intros [x|]; cbn; [destruct (String.eqb x "auth")|]; auto. }
  assert (Hact : forall s a,
            (getInitialView (session_appView s) = auth -> view s = auth) ->
            (getInitialView (session_appView (act s a)) = auth -> view (act s a) = auth)).
  { intros s [v'| |[fu|]|] Hs; cbn.
    - destruct v'; cbn; done.
    - done.
    - done.
    - intros Ha. by rewrite (Hs Ha).
    - done. }
  assert (Hrun : forall actions s,
            (getInitialView (session_appView s) = auth -> view s = auth) ->
            (getInitialView (session_appView (shell_run actions s)) = auth ->
             view (shell_run actions s) = auth)).
  { induction actions0 as [|a actions0 IH]; intros s Hs; [done |].
    change (shell_run (a :: actions0) s) with (shell_run actions0 (act s a)).
    by apply IH, Hact. }
  split; [| split].
  - apply Hrun. cbn. done.
  - apply Hinit.
  - by destruct v.
Qed.

(** X20. The theme survives a refresh: in every state reached from a
    mounted shell the stored theme is the current one, so a refresh starts
    with it whatever the system preference; and toggling twice gives the
    theme back. *)
Theorem stored_theme_round_trip (session local : option string) (prefersDark : bool)
    (actions : list Action) (prefersDark' : bool) :
  let s := shell_run actions (mount session local prefersDark) in
  local_theme s = Some (theme_text (theme s)) /\
  getInitialTheme (local_theme s) prefersDark' = theme s /\
  theme (toggleTheme (toggleTheme s)) = theme s.
Proof.
  cbv zeta.
  assert (Hrun : forall actions s,
            local_theme s = Some (theme_text (theme s)) ->
            local_theme (shell_run actions s) = Some (theme_text (theme (shell_run actions s)))).
  { induction actions0 as [|a actions0 IH]; intros s Hs; [done |].
    change (shell_run (a :: actions0) s) with (shell_run actions0 (act s a)).
    apply IH. destruct a as [v| |[fu|]|]; cbn; done. }
  set (s := shell_run actions (mount session local prefersDark)).
  assert (Hs : local_theme s = Some (theme_text (theme s))) by (apply Hrun; done).
  split; [done |]. split.
  - rewrite Hs. by destruct (theme s).
  - cbn. by destruct (theme s).
Qed.

(** X21. A visitor who never signs in is never shown a protected page:
    along any actions in which every authentication event reports no user,
    the shell shows the spinner, the landing page or the sign-in page. *)
Theorem signed_out_sees_no_protected_page (session local : option string)
    (prefersDark : bool) (actions : list Action) :
  Forall (fun a => forall fu, a <> AuthChanged (Some fu)) actions ->
  let s := shell_run actions (mount session local prefersDark) in
  user s = None /\
  (renderContent s = Authenticating \/ renderContent s = LandingPage \/
   renderContent s = AuthPage).
Proof.
  intros Hout. cbv zeta.
  assert (Hrun : forall s, user s = None -> user (shell_run actions s) = None).
  { induction Hout as [|a actions0 Ha _ IH]; intros s Hs; [done |].
    change (shell_run (a :: actions0) s) with (shell_run actions0 (act s a)).
    apply IH. destruct a as [v| |[fu|]|]; cbn; try done. by destruct (Ha fu). }
  set (s := shell_run actions (mount session local prefersDark)).
  assert (Hs : user s = None) by (apply Hrun; done).
  split; [done |]. unfold renderContent. rewrite Hs.
  destruct (authLoading s); [by left |]. destruct (view s); auto.
Qed.

Lemma signed_out_sees_no_protected_page_witness :
  renderContent (shell_run [AuthChanged None; SetView dashboard; EndSession]
                   (mount None None true)) = AuthPage.
Proof.
  destruct (signed_out_sees_no_protected_page None None true
              [AuthChanged None; SetView dashboard; EndSession]) as (Hu & Hp).
  - repeat constructor; discriminate.
  - reflexivity.
Defined.

End Shell.
